(** * Contact book of [main.py]: fields, records, address book and the
    upcoming-birthday calculator.

    The development is a shallow embedding.  Python strings are sequences of
    Unicode code points, exceptions are values of [result], and the methods
    that mutate [self] are functions from the object before the call to the
    outcome and the object after it.  The parts of the Python library the
    program calls ([str.isdigit], [datetime.strptime], [strftime],
    [date.replace], date arithmetic) are embedded from the library's own
    code and documentation, next to the program that uses them. *)

From Stdlib Require Import ZArith Lia Bool String Ascii.
From stdpp Require Import list.

Local Open Scope Z_scope.

(** ** Strings *)

(** A Python [str] is a sequence of code points. *)
Abbreviation str := (list Z).

(** An ASCII literal as a [str]. *)
Definition lit (s : string) : str :=
  (λ a, Z.of_N (N_of_ascii a)) <$> list_ascii_of_string s.

Module Unicode.

(** Code points with [Numeric_Type=Decimal] (general category Nd): every run
    starts at a digit zero and counts upwards. *)
Definition DECIMAL : list (Z * Z) :=
  [ (48, 57); (1632, 1641); (1776, 1785); (1984, 1993); (2406, 2415);
    (2534, 2543); (2662, 2671); (2790, 2799); (2918, 2927); (3046, 3055);
    (3174, 3183); (3302, 3311); (3430, 3439); (3558, 3567); (3664, 3673);
    (3792, 3801); (3872, 3881); (4160, 4169); (4240, 4249); (6112, 6121);
    (6160, 6169); (6470, 6479); (6608, 6617); (6784, 6793); (6800, 6809);
    (6992, 7001); (7088, 7097); (7232, 7241); (7248, 7257); (42528, 42537);
    (43216, 43225); (43264, 43273); (43472, 43481); (43504, 43513);
    (43600, 43609); (44016, 44025); (65296, 65305); (66720, 66729);
    (68912, 68921); (69734, 69743); (69872, 69881); (69942, 69951);
    (70096, 70105); (70384, 70393); (70736, 70745); (70864, 70873);
    (71248, 71257); (71360, 71369); (71472, 71481); (71904, 71913);
    (72016, 72025); (72784, 72793); (73040, 73049); (73120, 73129);
    (92768, 92777); (92864, 92873); (93008, 93017); (120782, 120831);
    (123200, 123209); (123632, 123641); (125264, 125273); (130032, 130041) ].

(** Code points with [Numeric_Type=Digit]: superscripts, subscripts, circled
    and parenthesised digits and the like. *)
Definition DIGIT : list (Z * Z) :=
  [ (178, 179); (185, 185); (4969, 4977); (6618, 6618); (8304, 8304);
    (8308, 8313); (8320, 8329); (9312, 9320); (9332, 9340); (9352, 9360);
    (9450, 9450); (9461, 9469); (9471, 9471); (10102, 10110); (10112, 10120);
    (10122, 10130); (68160, 68163); (69216, 69224); (69714, 69722);
    (127232, 127242) ].

Definition between (c : Z) (r : Z * Z) : bool := (r.1 <=? c) && (c <=? r.2).

(** [ch.isdecimal()], also the class [\d] of a [str] pattern. *)
Definition isdecimal (c : Z) : bool := existsb (between c) DECIMAL.

(** [ch.isdigit()]: Numeric_Type is Digit or Decimal. *)
Definition isdigit (c : Z) : bool := isdecimal c || existsb (between c) DIGIT.

(** The digit value [int] gives a decimal character. *)
Definition decimal_value (c : Z) : Z :=
  match List.find (between c) DECIMAL with
  | Some r => (c - r.1) mod 10
  | None => 0
  end.

(** The ten characters '0' to '9'. *)
Definition ascii_digit (c : Z) : bool := (48 <=? c) && (c <=? 57).

End Unicode.

(** [s.isdigit()]: all characters are digits and there is at least one. *)
Definition str_isdigit (s : str) : bool :=
  match s with
  | [] => false
  | _ => forallb Unicode.isdigit s
  end.

(** [sep.join(parts)] *)
Fixpoint join (sep : str) (parts : list str) : str :=
  match parts with
  | [] => []
  | [part] => part
  | part :: parts => part ++ sep ++ join sep parts
  end.

(** ** Exceptions *)

Inductive error : Type :=
| InvalidPhone                  (* ValueError("Phone number must be 10 digits.") *)
| InvalidBirthday               (* ValueError("Invalid date format. Use DD.MM.YYYY") *)
| PhoneNotFound (old_phone : str)  (* ValueError(f"Phone {old_phone} not found.") *)
| DateValueError                (* ValueError of the date constructor and of strptime *)
| DateOverflowError             (* OverflowError("result out of range") *)
| UsageError (message : str)    (* ValueError("Please provide ... Usage: ...") *)
| AttributeError.               (* a method or field of None *)

Inductive result (A : Type) : Type :=
| Ok (a : A)
| Raise (e : error).

Arguments Ok {A} a.
Arguments Raise {A} e.

Global Instance result_ret : MRet result := λ A a, Ok a.

Global Instance result_bind : MBind result := λ A B k r,
  match r with
  | Ok a => k a
  | Raise e => Raise e
  end.

Definition raises {A} (r : result A) : Prop := ∃ e, r = Raise e.

(** ** Fields *)

Module Phone.

Record t : Type := New { value : str }.

(** [len(value) == 10 and value.isdigit()] *)
Definition validate (value : str) : bool :=
  (Z.of_nat (length value) =? 10) && str_isdigit value.

Definition init (value : str) : result t :=
  if negb (validate value) then Raise InvalidPhone else Ok (New value).

End Phone.

(** ** The calendar of [datetime] *)

Module Datetime.

Definition MINYEAR : Z := 1.
Definition MAXYEAR : Z := 9999.
Definition MAXORDINAL : Z := 3652059.

(** [l[i]] for the two month tables, whose entry 0 is a placeholder. *)
Definition item (l : list Z) (i : Z) : Z := nth (Z.to_nat i) l (-1).

Definition DAYS_IN_MONTH : list Z :=
  [-1; 31; 28; 31; 30; 31; 30; 31; 31; 30; 31; 30; 31].

Definition DAYS_BEFORE_MONTH : list Z :=
  [-1; 0; 31; 59; 90; 120; 151; 181; 212; 243; 273; 304; 334].

Definition is_leap (year : Z) : bool :=
  (year mod 4 =? 0) && (negb (year mod 100 =? 0) || (year mod 400 =? 0)).

Definition days_before_year (year : Z) : Z :=
  let y := year - 1 in
  y * 365 + y / 4 - y / 100 + y / 400.

Definition days_in_month (year month : Z) : Z :=
  if (month =? 2) && is_leap year then 29 else item DAYS_IN_MONTH month.

Definition days_before_month (year month : Z) : Z :=
  item DAYS_BEFORE_MONTH month + (if (2 <? month) && is_leap year then 1 else 0).

Definition ymd2ord (year month day : Z) : Z :=
  days_before_year year + days_before_month year month + day.

Definition DI400Y : Z := Eval cbv in days_before_year 401.
Definition DI100Y : Z := Eval cbv in days_before_year 101.
Definition DI4Y : Z := Eval cbv in days_before_year 5.

(** The month and the day of the month of the day at offset [n] from
    January 1: the second half of [_ord2ymd]. *)
Definition month_day (leapyear : bool) (n : Z) : Z * Z :=
  let month := Z.shiftr (n + 50) 5 in
  let preceding :=
    item DAYS_BEFORE_MONTH month + (if (2 <? month) && leapyear then 1 else 0) in
  if n <? preceding then
    let month := month - 1 in
    let preceding :=
      preceding
      - (item DAYS_IN_MONTH month + (if (month =? 2) && leapyear then 1 else 0)) in
    (month, n - preceding + 1)
  else (month, n - preceding + 1).

Definition ord2ymd (n : Z) : Z * Z * Z :=
  let n := n - 1 in
  let n400 := n / DI400Y in
  let n := n mod DI400Y in
  let year := n400 * 400 + 1 in
  let n100 := n / DI100Y in
  let n := n mod DI100Y in
  let n4 := n / DI4Y in
  let n := n mod DI4Y in
  let n1 := n / 365 in
  let n := n mod 365 in
  let year := year + (n100 * 100 + n4 * 4 + n1) in
  if (n1 =? 4) || (n100 =? 4) then (year - 1, 12, 31)
  else
    let leapyear := (n1 =? 3) && (negb (n4 =? 24) || (n100 =? 3)) in
    let '(month, day) := month_day leapyear n in
    (year, month, day).

(** A [date] object.  Objects are only made by [new], which checks the
    fields. *)
Record date : Type := Date { year : Z; month : Z; day : Z }.

Definition valid (d : date) : Prop :=
  MINYEAR ≤ year d ≤ MAXYEAR ∧ 1 ≤ month d ≤ 12 ∧
  1 ≤ day d ≤ days_in_month (year d) (month d).

(** [date(year, month, day)] with [_check_date_fields]. *)
Definition new (year month day : Z) : result date :=
  if negb ((MINYEAR <=? year) && (year <=? MAXYEAR)) then Raise DateValueError
  else if negb ((1 <=? month) && (month <=? 12)) then Raise DateValueError
  else
    let dim := days_in_month year month in
    if negb ((1 <=? day) && (day <=? dim)) then Raise DateValueError
    else Ok (Date year month day).

(** [self.replace(year=y)] *)
Definition replace_year (self : date) (y : Z) : result date :=
  new y (month self) (day self).

Definition toordinal (self : date) : Z :=
  ymd2ord (year self) (month self) (day self).

Definition fromordinal (n : Z) : result date :=
  let '(y, m, d) := ord2ymd n in new y m d.

(** [self < other]: the field triples compared lexicographically. *)
Definition lt (self other : date) : bool :=
  (year self <? year other)
  || ((year self =? year other)
      && ((month self <? month other)
          || ((month self =? month other) && (day self <? day other)))).

(** [self + timedelta(days=n)] *)
Definition add_days (self : date) (n : Z) : result date :=
  let o := toordinal self + n in
  if (0 <? o) && (o <=? MAXORDINAL) then fromordinal o
  else Raise DateOverflowError.

(** [(self - other).days] *)
Definition sub_days (self other : date) : Z := toordinal self - toordinal other.

(** Monday is 0 and Sunday is 6. *)
Definition weekday (self : date) : Z := (toordinal self + 6) mod 7.

Definition digit (n : Z) : Z := 48 + n.

(** The directives of [strftime], which the C library renders.  [%d] and
    [%m] are two digits.  [%Y] is the year as a decimal number, written by
    the C library with the digits it has: a year below 1000 gets no zeros in
    front, so the year 990 is three characters.  (A year is 1 to 9999.) *)
Definition pad2 (n : Z) : str := [digit (n / 10 mod 10); digit (n mod 10)].

Definition year_text (n : Z) : str :=
  if n <? 10 then [digit n]
  else if n <? 100 then [digit (n / 10); digit (n mod 10)]
  else if n <? 1000 then
    [digit (n / 100); digit (n / 10 mod 10); digit (n mod 10)]
  else
    [digit (n / 1000 mod 10); digit (n / 100 mod 10); digit (n / 10 mod 10);
     digit (n mod 10)].

(** [self.strftime("%d.%m.%Y")] *)
Definition strftime (self : date) : str :=
  pad2 (day self) ++ [46] ++ pad2 (month self) ++ [46] ++ year_text (year self).

End Datetime.

(** ** [datetime.strptime(value, "%d.%m.%Y")] *)

Module Strptime.

(** A piece of a pattern, applied to the text that is left, gives the ways
    in which it can match there, in the order in which the backtracking
    matcher tries them: the text consumed and the text after it. *)
Definition matcher : Type := str → list (str * str).

Definition one (ok : Z → bool) : matcher := λ s,
  match s with
  | c :: rest => if ok c then [([c], rest)] else []
  | [] => []
  end.

Definition inrange (lo hi c : Z) : bool := (lo <=? c) && (c <=? hi).

(** A literal character, [[lo-hi]] and [\d]. *)
Definition chr (c : Z) : matcher := one (Z.eqb c).
Definition range (lo hi : Z) : matcher := one (inrange lo hi).
Definition decimal : matcher := one Unicode.isdecimal.

Definition seq (p q : matcher) : matcher := λ s,
  '(a, r) ← p s; '(b, r') ← q r; [(a ++ b, r')].

Definition alt (p q : matcher) : matcher := λ s, p s ++ q s.

Infix "⋅" := seq (at level 40, left associativity).
Infix "|||" := alt (at level 50, left associativity).

(** The directives as [_strptime.TimeRE] has them:
    [%d] is [3[0-1]|[1-2]\d|0[1-9]|[1-9]| [1-9]],
    [%m] is [1[0-2]|0[1-9]|[1-9]] and [%Y] is [\d\d\d\d]. *)
Definition re_d : matcher :=
  chr 51 ⋅ range 48 49 ||| range 49 50 ⋅ decimal ||| chr 48 ⋅ range 49 57
  ||| range 49 57 ||| chr 32 ⋅ range 49 57.

Definition re_m : matcher :=
  chr 49 ⋅ range 48 50 ||| chr 48 ⋅ range 49 57 ||| range 49 57.

Definition re_Y : matcher := decimal ⋅ decimal ⋅ decimal ⋅ decimal.

(** The matches of [(?P<d>..)\.(?P<m>..)\.(?P<Y>..)] at the start of the
    text: the three groups and the text that is left over. *)
Definition matches (data_string : str) : list (str * str * str * str) :=
  '(d, r) ← re_d data_string; '(_, r) ← chr 46 r;
  '(m, r) ← re_m r; '(_, r) ← chr 46 r;
  '(Y, r) ← re_Y r; [(d, m, Y, r)].

(** [int] of the text of a group: blanks around the digits are dropped. *)
Definition int (s : str) : Z :=
  foldl (λ acc c, 10 * acc + Unicode.decimal_value c) 0
        (filter (λ c, c ≠ 32) s).

Definition strptime (data_string : str) : result Datetime.date :=
  match matches data_string with
  | [] => Raise DateValueError
  | (d, m, Y, rest) :: _ =>
    if negb (Z.of_nat (length rest) =? 0) then Raise DateValueError
    else Datetime.new (int Y) (int m) (int d)
  end.

End Strptime.

Module Birthday.

(** The value is the date of the parsed [datetime], whose time of day is
    always midnight. *)
Record t : Type := New { value : Datetime.date }.

Definition init (value : str) : result t :=
  match Strptime.strptime value with
  | Ok d => Ok (New d)
  | Raise _ => Raise InvalidBirthday
  end.

(** [__str__] *)
Definition to_str (self : t) : str := Datetime.strftime (value self).

End Birthday.

(** ** Records *)

Module Rec.

Record t : Type :=
  New { name : str; phones : list Phone.t; birthday : option Birthday.t }.

(** A method: its outcome and the record after the call. *)
Definition method (A : Type) : Type := t → result A * t.

Definition init (name : str) : t := New name [] None.

Definition set_phones (ps : list Phone.t) (self : t) : t :=
  New (name self) ps (birthday self).

Definition set_birthday (b : option Birthday.t) (self : t) : t :=
  New (name self) (phones self) b.

Definition add_phone (phone : str) : method () := λ self,
  match Phone.init phone with
  | Ok p => (Ok (), set_phones (phones self ++ [p]) self)
  | Raise e => (Raise e, self)
  end.

Definition remove_phone (phone : str) : method () := λ self,
  (Ok (), set_phones (filter (λ p, Phone.value p ≠ phone) (phones self)) self).

(** The loop of [edit_phone], at the [i]-th phone, with [rest] still to
    visit. *)
Fixpoint edit_phone_from (i : nat) (rest : list Phone.t)
    (old_phone new_phone : str) : method () := λ self,
  match rest with
  | [] => (Raise (PhoneNotFound old_phone), self)
  | p :: rest =>
    if decide (Phone.value p = old_phone) then
      if negb (Phone.validate new_phone) then (Raise InvalidPhone, self)
      else (Ok (), set_phones (<[i := Phone.New new_phone]> (phones self)) self)
    else edit_phone_from (S i) rest old_phone new_phone self
  end.

Definition edit_phone (old_phone new_phone : str) : method () := λ self,
  edit_phone_from 0 (phones self) old_phone new_phone self.

Definition find_phone (phone : str) (self : t) : option Phone.t :=
  List.find (λ p, bool_decide (Phone.value p = phone)) (phones self).

Definition add_birthday (birthday : str) : method () := λ self,
  match Birthday.init birthday with
  | Ok b => (Ok (), set_birthday (Some b) self)
  | Raise e => (Raise e, self)
  end.

End Rec.

(** ** The address book *)

Module AddressBook.

(** [self.data] of the [UserDict]: a dict from names to records, which
    keeps its keys in the order of their first insertion. *)
Abbreviation dict := (list (str * Rec.t)).

Record t : Type := New { data : dict }.

(** A method: its outcome and the book after the call. *)
Definition method (A : Type) : Type := t → result A * t.

Definition empty : t := New [].

(** [key in d] *)
Definition contains (key : str) (d : dict) : bool :=
  bool_decide (key ∈ d.*1).

(** [d.get(key)] *)
Fixpoint get (key : str) (d : dict) : option Rec.t :=
  match d with
  | [] => None
  | (k, v) :: d => if decide (k = key) then Some v else get key d
  end.

(** [d[key] = value] *)
Fixpoint setitem (key : str) (value : Rec.t) (d : dict) : dict :=
  match d with
  | [] => [(key, value)]
  | (k, v) :: d =>
    if decide (k = key) then (k, value) :: d else (k, v) :: setitem key value d
  end.

(** [del d[key]] *)
Definition delitem (key : str) (d : dict) : dict :=
  filter (λ kv, kv.1 ≠ key) d.

(** [d.values()] *)
Definition values (d : dict) : list Rec.t := d.*2.

Definition add_record (record : Rec.t) : method () := λ self,
  (Ok (), New (setitem (Rec.name record) record (data self))).

Definition find (name : str) (self : t) : option Rec.t := get name (data self).

Definition delete (name : str) : method () := λ self,
  if contains name (data self) then (Ok (), New (delitem name (data self)))
  else (Ok (), self).

(** An entry of the list of upcoming birthdays. *)
Record entry : Type := Entry { entry_name : str; congratulation_date : str }.

(** Lines 95 to 99: the birthday moved into this year, or into the next
    year when that day is before [today]. *)
Definition birthday_this_year (today birthday_date : Datetime.date)
    : result Datetime.date :=
  birthday_this_year ← Datetime.replace_year birthday_date (Datetime.year today);
  if Datetime.lt birthday_this_year today then
    Datetime.replace_year birthday_date (Datetime.year today + 1)
  else Ok birthday_this_year.

(** Lines 104 to 106: a Saturday or a Sunday moved to the Monday after. *)
Definition congratulation_day (birthday_this_year : Datetime.date)
    : result Datetime.date :=
  if 5 <=? Datetime.weekday birthday_this_year then
    let days_to_monday := 7 - Datetime.weekday birthday_this_year in
    Datetime.add_days birthday_this_year days_to_monday
  else Ok birthday_this_year.

(** The loop of [get_upcoming_birthdays] over the records still to visit,
    with the list built so far. *)
Fixpoint upcoming_from (today : Datetime.date) (records : list Rec.t)
    (upcoming_birthdays : list entry) : result (list entry) :=
  match records with
  | [] => Ok upcoming_birthdays
  | record :: records =>
    match Rec.birthday record with
    | None => upcoming_from today records upcoming_birthdays
    | Some b =>
      birthday_this_year ← birthday_this_year today (Birthday.value b);
      let days_until_birthday := Datetime.sub_days birthday_this_year today in
      if (0 <=? days_until_birthday) && (days_until_birthday <=? 7) then
        birthday_this_year ← congratulation_day birthday_this_year;
        upcoming_from today records
          (upcoming_birthdays
           ++ [Entry (Rec.name record) (Datetime.strftime birthday_this_year)])
      else upcoming_from today records upcoming_birthdays
    end
  end.

(** [today] stands for [datetime.today().date()]. *)
Definition get_upcoming_birthdays (today : Datetime.date) (self : t)
    : result (list entry) :=
  upcoming_from today (values (data self)) [].

End AddressBook.

(** ** The commands *)

(** Each command is a function [func] under the decorator [input_error],
    which turns what [func] raises into the text of a reply. *)
Module Bot.

(** A call of a method on the record that [book.find(name)] returns.  The
    record found is the object stored in the book, so the call changes the
    book in place; on [None] it is an [AttributeError]. *)
Definition on_found {A} (name : str) (m : Rec.method A)
    : AddressBook.method A := λ book,
  match AddressBook.find name book with
  | None => (Raise AttributeError, book)
  | Some record =>
    let '(r, record) := m record in
    (r, AddressBook.New (AddressBook.setitem name record (AddressBook.data book)))
  end.

(** [m; return message] *)
Definition reply {A} (m : AddressBook.method A) (message : str)
    : AddressBook.method str := λ book,
  match m book with
  | (Ok _, book) => (Ok message, book)
  | (Raise e, book) => (Raise e, book)
  end.

(** [inner] of [input_error], at the outcome of the call of [func].  A
    [ValueError] [e] gives the reply [f"Error: {str(e)}"] and an
    [AttributeError] the reply "Error: Contact not found."; an
    [OverflowError] is not caught.  ([KeyError] and [IndexError] are caught
    too, and raised by nothing here.)  The text of a [ValueError] that the
    date library raises is the library's own, which the exceptions of this
    development do not record: it is the argument [library_text]. *)
Definition inner (library_text : str) (outcome : result str) : result str :=
  match outcome with
  | Ok message => Ok message
  | Raise InvalidPhone => Ok (lit "Error: " ++ lit "Phone number must be 10 digits.")
  | Raise InvalidBirthday =>
    Ok (lit "Error: " ++ lit "Invalid date format. Use DD.MM.YYYY")
  | Raise (PhoneNotFound old_phone) =>
    Ok (lit "Error: " ++ lit "Phone " ++ old_phone ++ lit " not found.")
  | Raise (UsageError message) => Ok (lit "Error: " ++ message)
  | Raise DateValueError => Ok (lit "Error: " ++ library_text)
  | Raise AttributeError => Ok (lit "Error: Contact not found.")
  | Raise DateOverflowError => Raise DateOverflowError
  end.

(** [input_error(func)]: what [func] did to the book before it raised
    stays done. *)
Definition input_error (library_text : str) (func : AddressBook.method str)
    : AddressBook.method str := λ book,
  let '(outcome, book) := func book in (inner library_text outcome, book).

(** The functions that the decorator is applied to. *)

Definition add_contact_func (args : list str) : AddressBook.method str := λ book,
  match args with
  | name :: phone :: _ =>
    match AddressBook.find name book with
    | None =>
      let record := Rec.init name in
      let book := (AddressBook.add_record record book).2 in
      reply (on_found name (Rec.add_phone phone)) (lit "Contact added.") book
    | Some _ =>
      reply (on_found name (Rec.add_phone phone)) (lit "Contact updated.") book
    end
  | _ =>
    (Raise (UsageError (lit
       "Please provide name and phone number. Usage: add [name] [phone]")),
     book)
  end.

Definition change_contact_func (args : list str) : AddressBook.method str := λ book,
  match args with
  | name :: old_phone :: new_phone :: _ =>
    reply (on_found name (Rec.edit_phone old_phone new_phone))
          (lit "Contact updated.") book
  | _ =>
    (Raise (UsageError (lit
       "Please provide name, old phone and new phone. Usage: change [name] [old_phone] [new_phone]")),
     book)
  end.

Definition show_phone_func (args : list str) (book : AddressBook.t) : result str :=
  match args with
  | name :: _ =>
    match AddressBook.find name book with
    | None => Raise AttributeError
    | Some record =>
      match Rec.phones record with
      | [] => Ok (lit "No phones saved for " ++ name ++ lit ".")
      | phones => Ok (join (lit "; ") (Phone.value <$> phones))
      end
    end
  | [] => Raise (UsageError (lit "Please provide contact name. Usage: phone [name]"))
  end.

Definition add_birthday_func (args : list str) : AddressBook.method str := λ book,
  match args with
  | name :: birthday :: _ =>
    reply (on_found name (Rec.add_birthday birthday)) (lit "Birthday added.") book
  | _ =>
    (Raise (UsageError (lit
       "Please provide name and birthday. Usage: add-birthday [name] [DD.MM.YYYY]")),
     book)
  end.

Definition show_birthday_func (args : list str) (book : AddressBook.t) : result str :=
  match args with
  | name :: _ =>
    match AddressBook.find name book with
    | None => Raise AttributeError
    | Some record =>
      match Rec.birthday record with
      | None => Ok (lit "Birthday not set for this contact.")
      | Some b => Ok (Birthday.to_str b)
      end
    end
  | [] =>
    Raise (UsageError (lit
      "Please provide contact name. Usage: show-birthday [name]"))
  end.

(** The commands: the functions above under [@input_error]. *)

Definition add_contact (library_text : str) (args : list str)
    : AddressBook.method str :=
  input_error library_text (add_contact_func args).

Definition change_contact (library_text : str) (args : list str)
    : AddressBook.method str :=
  input_error library_text (change_contact_func args).

Definition show_phone (library_text : str) (args : list str)
    (book : AddressBook.t) : result str :=
  inner library_text (show_phone_func args book).

Definition add_birthday (library_text : str) (args : list str)
    : AddressBook.method str :=
  input_error library_text (add_birthday_func args).

Definition show_birthday (library_text : str) (args : list str)
    (book : AddressBook.t) : result str :=
  inner library_text (show_birthday_func args book).

End Bot.

(** ** Sample data *)

Module Sample.

(** Bob, born 15.06.1990, and the Monday 10.06.2024. *)
Definition bob : Rec.t :=
  (Rec.add_birthday (lit "15.06.1990") (Rec.init (lit "Bob"))).2.

Definition bob_book : AddressBook.t :=
  (AddressBook.add_record bob AddressBook.empty).2.

Definition monday : Datetime.date := Datetime.Date 2024 6 10.

(** A book with a leap-day birthday beside an ordinary one, and a day of a
    year that is not a leap year. *)
Definition ann : Rec.t :=
  (Rec.add_birthday (lit "13.06.1990") (Rec.init (lit "Ann"))).2.

Definition leo : Rec.t :=
  (Rec.add_birthday (lit "29.02.2000") (Rec.init (lit "Leo"))).2.

Definition leap_book : AddressBook.t :=
  (AddressBook.add_record leo (AddressBook.add_record ann AddressBook.empty).2).2.

Definition saturday : Datetime.date := Datetime.Date 2023 6 10.

(** Two phone numbers, and a record that holds the first one twice. *)
Definition phone1 : str := lit "1234567890".

Definition phone2 : str := lit "0987654321".

Definition twice : Rec.t :=
  (Rec.add_phone phone1 (Rec.add_phone phone1 (Rec.init (lit "Eve"))).2).2.

End Sample.

(** ** Definitions used by the statements and the proofs *)

Import Datetime AddressBook.

(** What [_ord2ymd] asserts of the month it finds, as a test. *)
Definition month_day_ok (leap : bool) (n : Z) : bool :=
  let '(m, d) := month_day leap n in
  (1 <=? m) && (m <=? 12) && (1 <=? d)
  && (d <=? (if (m =? 2) && leap then 29 else item DAYS_IN_MONTH m))
  && (item DAYS_BEFORE_MONTH m + (if (2 <? m) && leap then 1 else 0) + d =? n + 1).

(** [_ord2ymd] after its four divisions. *)
Definition ord2ymd_tail (n400 n100 n4 n1 n : Z) : Z * Z * Z :=
  let year := n400 * 400 + 1 in
  let year := year + (n100 * 100 + n4 * 4 + n1) in
  if (n1 =? 4) || (n100 =? 4) then (year - 1, 12, 31)
  else
    let leapyear := (n1 =? 3) && (negb (n4 =? 24) || (n100 =? 3)) in
    let '(month, day) := month_day leapyear n in
    (year, month, day).

(** What the loop does with one record: nothing, an entry, or an error. *)
Definition entry_of (today : date) (record : Rec.t) : result (option entry) :=
  match Rec.birthday record with
  | None => Ok None
  | Some b =>
    occ ← birthday_this_year today (Birthday.value b);
    let days := sub_days occ today in
    if (0 <=? days) && (days <=? 7) then
      cd ← congratulation_day occ;
      Ok (Some (Entry (Rec.name record) (strftime cd)))
    else Ok None
  end.

(** The texts that [%d] accepts: 30 or 31; 1 or 2 and then a decimal digit,
    of any script; 0 and then one of 1 to 9; one of 1 to 9 alone; a blank and
    then one of 1 to 9. *)
Definition is_day_text (g : str) : bool :=
  match g with
  | [a] => Strptime.inrange 49 57 a
  | [a; b] =>
    (51 =? a) && Strptime.inrange 48 49 b || Strptime.inrange 49 50 a && Unicode.isdecimal b
    || (48 =? a) && Strptime.inrange 49 57 b || (32 =? a) && Strptime.inrange 49 57 b
  | _ => false
  end.

(** The texts that [%m] accepts: 10, 11 or 12; 0 and then one of 1 to 9; one
    of 1 to 9 alone. *)
Definition is_month_text (g : str) : bool :=
  match g with
  | [a] => Strptime.inrange 49 57 a
  | [a; b] => (49 =? a) && Strptime.inrange 48 50 b || (48 =? a) && Strptime.inrange 49 57 b
  | _ => false
  end.

(** The texts that [%Y] accepts: four decimal digits, each of any script. *)
Definition is_year_text (g : str) : bool :=
  match g with
  | [a; b; c; d] => forallb Unicode.isdecimal [a; b; c; d]
  | _ => false
  end.

(** The number written with the digits 0-9. *)
Definition number (ds : str) : Z := foldl (λ acc c, 10 * acc + (c - 48)) 0 ds.

(** A text DD.MM.YYYY in the digits 0-9 that names a day of the calendar. *)
Definition real_date_text (s : str) : Prop :=
  ∃ d1 d2 m1 m2 y1 y2 y3 y4,
    s = [d1; d2; 46; m1; m2; 46; y1; y2; y3; y4]
    ∧ Forall (λ c, Unicode.ascii_digit c = true) [d1; d2; m1; m2; y1; y2; y3; y4]
    ∧ valid (Date (number [y1; y2; y3; y4]) (number [m1; m2]) (number [d1; d2])).

(** The calls that change a record. *)
Inductive call : Type :=
| AddPhone (phone : str)
| RemovePhone (phone : str)
| EditPhone (old_phone new_phone : str)
| AddBirthday (birthday : str).

Definition run (c : call) : Rec.method () :=
  match c with
  | AddPhone phone => Rec.add_phone phone
  | RemovePhone phone => Rec.remove_phone phone
  | EditPhone old_phone new_phone => Rec.edit_phone old_phone new_phone
  | AddBirthday birthday => Rec.add_birthday birthday
  end.

(** The records a program can build: made by [Record(name)] and changed by
    calls of the methods, whether they return or raise. *)
Inductive reachable : Rec.t → Prop :=
| reachable_init name : reachable (Rec.init name)
| reachable_call c self : reachable self → reachable (run c self).2.

(** The books a program can build.  A record found in the book is the
    stored object itself, so a call on it changes the book in place. *)
Inductive book_reachable : AddressBook.t → Prop :=
| book_reachable_empty : book_reachable AddressBook.empty
| book_reachable_add record book :
    reachable record → book_reachable book →
    book_reachable (AddressBook.add_record record book).2
| book_reachable_delete name book :
    book_reachable book → book_reachable (AddressBook.delete name book).2
| book_reachable_call name c record book :
    book_reachable book → AddressBook.find name book = Some record →
    book_reachable
      (AddressBook.New
         (AddressBook.setitem name (run c record).2 (AddressBook.data book))).

Definition phones_valid (self : Rec.t) : Prop :=
  Forall (λ p, Phone.validate (Phone.value p) = true) (Rec.phones self).

(** The first phone equal to [old_phone] is at index [i]. *)
Definition first_at (old_phone : str) (ps : list Phone.t) (i : nat) : Prop :=
  (∃ p, ps !! i = Some p ∧ Phone.value p = old_phone)
  ∧ ∀ j q, (j < i)%nat → ps !! j = Some q → Phone.value q ≠ old_phone.

(** How many stored phones have the value [phone]. *)
Definition count_phone (phone : str) (ps : list Phone.t) : nat :=
  length (filter (λ p, Phone.value p = phone) ps).

(** Every key of the dict is the name of the record stored under it. *)
Definition keyed_by_name (d : dict) : Prop :=
  Forall (λ kv, kv.1 = Rec.name kv.2) d.

(** The birthday of the record, when it has one, is a date of the calendar. *)
Definition birthday_valid (self : Rec.t) : Prop :=
  ∀ b, Rec.birthday self = Some b → valid (Birthday.value b).

(** * Properties *)

(** ** The calendar *)

Lemma is_leap_true y : is_leap y = true ↔ y mod 4 = 0 ∧ (y mod 100 ≠ 0 ∨ y mod 400 = 0).
Proof.
  unfold is_leap. rewrite andb_true_iff, orb_true_iff, negb_true_iff.
  rewrite !Z.eqb_eq, Z.eqb_neq. tauto.
Qed.

Lemma days_before_year_succ y :
  days_before_year (y + 1) = days_before_year y + (if is_leap y then 366 else 365).
Proof.
  unfold days_before_year.
  destruct (is_leap y) eqn:E.
  - apply is_leap_true in E. (Z.div_mod_to_equations; lia).
  - assert (¬ (y mod 4 = 0 ∧ (y mod 100 ≠ 0 ∨ y mod 400 = 0))) as E'
      by (rewrite <- is_leap_true; congruence).
    (Z.div_mod_to_equations; lia).
Qed.

Lemma forallb_below (f : Z → bool) (k : nat) :
  forallb f (Z.of_nat <$> seq 0 k) = true →
  ∀ n, 0 ≤ n < Z.of_nat k → f n = true.
Proof.
  intros H n Hn. rewrite forallb_forall in H. apply H.
  apply list_elem_of_In, list_elem_of_fmap. exists (Z.to_nat n). split; [lia|].
  apply elem_of_seq. lia.
Qed.

Lemma month_day_spec leap n :
  0 ≤ n ≤ 364 → month_day_ok leap n = true.
Proof.
  intros Hn. apply (forallb_below (month_day_ok leap) 365); [|lia].
  destruct leap; vm_compute; reflexivity.
Qed.


Lemma ord2ymd_tail_eq n :
  ord2ymd n =
  ord2ymd_tail ((n - 1) / 146097) ((n - 1) mod 146097 / 36524)
    ((n - 1) mod 146097 mod 36524 / 1461)
    ((n - 1) mod 146097 mod 36524 mod 1461 / 365)
    ((n - 1) mod 146097 mod 36524 mod 1461 mod 365).
Proof. reflexivity. Qed.

Lemma new_ok y m d :
  1 ≤ y ≤ 9999 → 1 ≤ m ≤ 12 → 1 ≤ d ≤ days_in_month y m →
  new y m d = Ok (Date y m d).
Proof.
  intros Hy Hm Hd. unfold new, MINYEAR, MAXYEAR.
  rewrite (proj2 (andb_true_iff _ _)) by (split; apply Z.leb_le; lia).
  rewrite (proj2 (andb_true_iff _ _)) by (split; apply Z.leb_le; lia).
  rewrite (proj2 (andb_true_iff _ _)) by (split; apply Z.leb_le; lia).
  reflexivity.
Qed.

Lemma ord2ymd_tail_spec n0 n400 r400 n100 r100 n4 r4 n1 r1 :
  0 ≤ n0 < 3652059 →
  n0 = 146097 * n400 + r400 → 0 ≤ r400 < 146097 →
  r400 = 36524 * n100 + r100 → 0 ≤ r100 < 36524 →
  r100 = 1461 * n4 + r4 → 0 ≤ r4 < 1461 →
  r4 = 365 * n1 + r1 → 0 ≤ r1 < 365 →
  ∃ y m d, ord2ymd_tail n400 n100 n4 n1 r1 = (y, m, d)
           ∧ 1 ≤ y ≤ 9999 ∧ 1 ≤ m ≤ 12 ∧ 1 ≤ d ≤ days_in_month y m
           ∧ ymd2ord y m d = n0 + 1.
Proof.
  intros Hn E400 B400 E100 B100 E4 B4 E1 B1.
  assert (0 ≤ n400 ≤ 24 ∧ 0 ≤ n100 ≤ 4 ∧ 0 ≤ n4 ≤ 24 ∧ 0 ≤ n1 ≤ 4) as B by lia.
  unfold ord2ymd_tail. cbv zeta.
  destruct ((n1 =? 4) || (n100 =? 4)) eqn:Hbr.
  - apply orb_true_iff in Hbr. rewrite !Z.eqb_eq in Hbr.
    set (y := n400 * 400 + 1 + (n100 * 100 + n4 * 4 + n1) - 1).
    assert (is_leap y = true) as L.
    { apply is_leap_true. subst y. Z.div_mod_to_equations. lia. }
    exists y, 12, 31. split; [reflexivity|].
    unfold ymd2ord, days_in_month, days_before_month, days_before_year.
    rewrite L. change (item DAYS_BEFORE_MONTH 12) with 334.
    change (item DAYS_IN_MONTH 12) with 31.
    change ((12 =? 2) && true) with false. change ((2 <? 12) && true) with true.
    cbv iota.
    repeat split; try lia; subst y; Z.div_mod_to_equations; lia.
  - apply orb_false_iff in Hbr. rewrite !Z.eqb_neq in Hbr.
    set (leap := (n1 =? 3) && (negb (n4 =? 24) || (n100 =? 3))).
    set (y := n400 * 400 + 1 + (n100 * 100 + n4 * 4 + n1)).
    assert (leap = is_leap y) as L.
    { subst leap y. apply eq_true_iff_eq. rewrite is_leap_true.
      rewrite andb_true_iff, orb_true_iff, negb_true_iff, !Z.eqb_eq, Z.eqb_neq.
      Z.div_mod_to_equations. lia. }
    pose proof (month_day_spec leap r1 ltac:(lia)) as Hmd.
    unfold month_day_ok in Hmd. destruct (month_day leap r1) as [m d].
    rewrite !andb_true_iff, !Z.leb_le, Z.eqb_eq in Hmd.
    destruct Hmd as [[[[Hm1 Hm2] Hd1] Hd2] Hsum].
    exists y, m, d. split; [reflexivity|].
    unfold ymd2ord, days_in_month, days_before_month. rewrite <- L.
    repeat split; try lia.
    unfold days_before_year. subst y. Z.div_mod_to_equations. lia.
Qed.

Lemma ord2ymd_spec n :
  1 ≤ n ≤ MAXORDINAL →
  ∃ y m d, ord2ymd n = (y, m, d) ∧ valid (Date y m d) ∧ ymd2ord y m d = n.
Proof.
  intros Hn. unfold MAXORDINAL in Hn. rewrite ord2ymd_tail_eq.
  destruct (ord2ymd_tail_spec (n - 1) _ _ _ _ _ _ _ _ ltac:(lia)
    (Z.div_mod (n - 1) 146097 ltac:(lia))
    (Z.mod_pos_bound (n - 1) 146097 ltac:(lia))
    (Z.div_mod ((n - 1) mod 146097) 36524 ltac:(lia))
    (Z.mod_pos_bound _ 36524 ltac:(lia))
    (Z.div_mod ((n - 1) mod 146097 mod 36524) 1461 ltac:(lia))
    (Z.mod_pos_bound _ 1461 ltac:(lia))
    (Z.div_mod ((n - 1) mod 146097 mod 36524 mod 1461) 365 ltac:(lia))
    (Z.mod_pos_bound _ 365 ltac:(lia))) as (y & m & d & E & Hy & Hm & Hd & Ho).
  exists y, m, d. split; [exact E|]. split; [|lia].
  unfold valid, MINYEAR, MAXYEAR. cbn. lia.
Qed.

Ltac month_cases m :=
  let H := fresh in
  assert (m = 1 ∨ m = 2 ∨ m = 3 ∨ m = 4 ∨ m = 5 ∨ m = 6 ∨ m = 7 ∨ m = 8
          ∨ m = 9 ∨ m = 10 ∨ m = 11 ∨ m = 12) as H by lia;
  repeat destruct H as [H|H]; subst m.

Ltac eval_items :=
  repeat match goal with
  | |- context [item ?l ?m] =>
    let v := eval vm_compute in (item l m) in change (item l m) with v
  end; cbn [Z.eqb Z.ltb Z.leb Z.compare Pos.eqb Pos.compare Pos.compare_cont andb].

Lemma days_before_year_mono y1 y2 :
  y1 ≤ y2 → days_before_year y1 ≤ days_before_year y2.
Proof. unfold days_before_year. intros. Z.div_mod_to_equations. lia. Qed.

Lemma day_of_year_bounds y m d :
  1 ≤ m ≤ 12 → 1 ≤ d ≤ days_in_month y m →
  1 ≤ days_before_month y m + d ≤ (if is_leap y then 366 else 365).
Proof.
  intros Hm. unfold days_in_month, days_before_month.
  month_cases m; destruct (is_leap y); eval_items; lia.
Qed.

Lemma toordinal_bounds d : valid d → 1 ≤ toordinal d ≤ MAXORDINAL.
Proof.
  intros (Hy & Hm & Hd). unfold toordinal, ymd2ord, MINYEAR, MAXYEAR, MAXORDINAL in *.
  pose proof (day_of_year_bounds _ _ _ Hm Hd) as Hdoy.
  pose proof (days_before_year_succ (year d)) as Hs.
  pose proof (days_before_year_mono 1 (year d) ltac:(lia)) as H1.
  pose proof (days_before_year_mono (year d + 1) 10000 ltac:(lia)) as H2.
  change (days_before_year 1) with 0 in H1.
  change (days_before_year 10000) with 3652059 in H2.
  destruct (is_leap (year d)); lia.
Qed.

Lemma days_before_month_step y m1 m2 d :
  1 ≤ m1 → m1 < m2 → m2 ≤ 12 → d ≤ days_in_month y m1 →
  days_before_month y m1 + d ≤ days_before_month y m2.
Proof.
  intros H1 H2 H3. unfold days_in_month, days_before_month.
  month_cases m1; month_cases m2; try lia; destruct (is_leap y); eval_items; lia.
Qed.

Lemma lt_toordinal a b :
  valid a → valid b → lt a b = true → toordinal a < toordinal b.
Proof.
  intros (Hya & Hma & Hda) (Hyb & Hmb & Hdb). unfold lt, toordinal, ymd2ord.
  repeat first [rewrite orb_true_iff | rewrite andb_true_iff];
    rewrite !Z.ltb_lt, !Z.eqb_eq.
  intros [Hy | [Hy [Hm | [Hm Hd]]]].
  - pose proof (day_of_year_bounds _ _ _ Hma Hda).
    pose proof (day_of_year_bounds _ _ _ Hmb Hdb).
    pose proof (days_before_year_succ (year a)).
    pose proof (days_before_year_mono (year a + 1) (year b) ltac:(lia)).
    destruct (is_leap (year a)); lia.
  - rewrite Hy in *.
    pose proof (days_before_month_step (year b) (month a) (month b) (day a)
                  ltac:(lia) Hm ltac:(lia) ltac:(lia)).
    lia.
  - rewrite Hy, Hm. lia.
Qed.

Lemma lt_false_toordinal a b :
  valid a → valid b → lt a b = false → toordinal b ≤ toordinal a.
Proof.
  intros Ha Hb H.
  destruct (lt b a) eqn:E.
  - apply lt_toordinal in E; auto. lia.
  - assert (a = b) as ->; [|lia].
    unfold lt in *. destruct a, b; cbn in *.
    repeat first [rewrite orb_false_iff in H | rewrite andb_false_iff in H
                  | rewrite orb_false_iff in E | rewrite andb_false_iff in E].
    rewrite !Z.ltb_ge, !Z.eqb_neq in H, E. f_equal; lia.
Qed.

Lemma fromordinal_ok n :
  1 ≤ n ≤ MAXORDINAL →
  ∃ d, fromordinal n = Ok d ∧ valid d ∧ toordinal d = n.
Proof.
  intros Hn. destruct (ord2ymd_spec n Hn) as (y & m & d & E & Hv & Ho).
  exists (Date y m d). unfold fromordinal. rewrite E. split; [|done].
  destruct Hv as (Hy & Hm & Hd). apply new_ok; assumption.
Qed.

Lemma new_valid y m d x : new y m d = Ok x → x = Date y m d ∧ valid x.
Proof.
  unfold new, valid, MINYEAR, MAXYEAR.
  destruct ((1 <=? y) && (y <=? 9999)) eqn:E1; [|discriminate].
  destruct ((1 <=? m) && (m <=? 12)) eqn:E2; [|discriminate].
  destruct ((1 <=? d) && (d <=? days_in_month y m)) eqn:E3; [|discriminate].
  cbn. intros [= <-]. cbn.
  rewrite andb_true_iff, !Z.leb_le in E1, E2, E3. auto.
Qed.

(** ** The upcoming birthdays *)

Lemma replace_year_valid d y x :
  replace_year d y = Ok x →
  valid x ∧ year x = y ∧ month x = month d ∧ day x = day d.
Proof.
  unfold replace_year. intros H. apply new_valid in H as [-> Hv]. auto.
Qed.

Lemma birthday_this_year_ok today b occ :
  birthday_this_year today b = Ok occ →
  valid occ ∧ month occ = month b ∧ day occ = day b
  ∧ year occ = (if lt (Date (year today) (month b) (day b)) today
                then year today + 1 else year today)
  ∧ (lt occ today = false ∨ year today < year occ).
Proof.
  unfold birthday_this_year.
  destruct (replace_year b (year today)) as [x|] eqn:E1; [|discriminate].
  cbn. apply new_valid in E1 as [-> Hv].
  destruct (lt _ today) eqn:E2.
  - intros H. apply replace_year_valid in H as (? & ? & ? & ?).
    split_and!; auto. right. lia.
  - intros [= <-]. cbn. split_and!; auto.
Qed.

Lemma birthday_this_year_future today b occ :
  valid today → birthday_this_year today b = Ok occ →
  0 ≤ sub_days occ today.
Proof.
  intros Ht H. apply birthday_this_year_ok in H as (Hv & _ & _ & _ & H).
  unfold sub_days. destruct H as [H|H].
  - apply lt_false_toordinal in H; auto. lia.
  - assert (lt today occ = true) as L.
    { unfold lt. apply orb_true_iff. left. apply Z.ltb_lt. exact H. }
    apply lt_toordinal in L; auto. lia.
Qed.

Lemma weekday_range d : 0 ≤ weekday d ≤ 6.
Proof. unfold weekday. Z.div_mod_to_equations. lia. Qed.

Lemma congratulation_day_ok occ :
  valid occ →
  ∃ cd, congratulation_day occ = Ok cd ∧ valid cd
        ∧ weekday cd < 5
        ∧ toordinal cd =
          toordinal occ + (if weekday occ =? 5 then 2
                           else if weekday occ =? 6 then 1 else 0).
Proof.
  intros Hv. unfold congratulation_day.
  pose proof (weekday_range occ) as Hr.
  pose proof (toordinal_bounds occ Hv) as Hb. unfold MAXORDINAL in Hb.
  destruct (5 <=? weekday occ) eqn:E.
  - apply Z.leb_le in E. unfold add_days.
    assert (1 ≤ toordinal occ + (7 - weekday occ) ≤ MAXORDINAL) as Ho.
    { unfold MAXORDINAL, weekday in *. Z.div_mod_to_equations. lia. }
    rewrite (proj2 (andb_true_iff _ _))
      by (split; [apply Z.ltb_lt | apply Z.leb_le]; lia).
    destruct (fromordinal_ok _ Ho) as (cd & -> & Hcd & Hord).
    exists cd. repeat split; try apply Hcd.
    + unfold weekday in *. rewrite Hord. Z.div_mod_to_equations. lia.
    + rewrite Hord.
      destruct (weekday occ =? 5) eqn:E5; [apply Z.eqb_eq in E5; lia|].
      destruct (weekday occ =? 6) eqn:E6; [apply Z.eqb_eq in E6; lia|].
      apply Z.eqb_neq in E5, E6. lia.
  - apply Z.leb_gt in E. exists occ. repeat split; try apply Hv; try lia.
    destruct (weekday occ =? 5) eqn:E5; [apply Z.eqb_eq in E5; lia|].
    destruct (weekday occ =? 6) eqn:E6; [apply Z.eqb_eq in E6; lia|].
    lia.
Qed.

Lemma congratulation_day_weekday occ :
  weekday occ < 5 → congratulation_day occ = Ok occ.
Proof.
  intros H. unfold congratulation_day.
  destruct (5 <=? weekday occ) eqn:E; [apply Z.leb_le in E; lia|done].
Qed.

Lemma upcoming_from_cons today record records acc :
  upcoming_from today (record :: records) acc =
  match entry_of today record with
  | Ok None => upcoming_from today records acc
  | Ok (Some e) => upcoming_from today records (acc ++ [e])
  | Raise x => Raise x
  end.
Proof.
  cbn [upcoming_from]. unfold entry_of.
  destruct (Rec.birthday record) as [b|]; [|done].
  destruct (birthday_this_year today (Birthday.value b)) as [occ|]; [|done].
  cbn. destruct ((0 <=? sub_days occ today) && (sub_days occ today <=? 7)); [|done].
  destruct (congratulation_day occ); done.
Qed.

Lemma upcoming_from_ok today records acc out :
  upcoming_from today records acc = Ok out ↔
  ∃ es, Forall2 (λ r oe, entry_of today r = Ok oe) records es
        ∧ out = acc ++ omap id es.
Proof.
  revert acc. induction records as [|r rs IH]; intros acc.
  - cbn. split.
    + intros [= <-]. exists []. split; [constructor|]. cbn. by rewrite app_nil_r.
    + intros (es & H & ->). inversion H; subst. cbn. by rewrite app_nil_r.
  - rewrite upcoming_from_cons. split.
    + destruct (entry_of today r) as [[e|]|] eqn:E; [| |discriminate].
      * intros H. apply IH in H as (es & HF & ->). exists (Some e :: es).
        split; [by constructor|]. cbn. by rewrite <- app_assoc.
      * intros H. apply IH in H as (es & HF & ->). exists (None :: es).
        split; [by constructor|]. done.
    + intros (es & HF & ->). inversion HF as [|? oe ? es' Hr HF']; subst.
      rewrite Hr. destruct oe as [e|]; apply IH; exists es'; split; auto.
      cbn. by rewrite <- app_assoc.
Qed.

Lemma entry_of_raises today record x :
  entry_of today record = Raise x → x = DateValueError.
Proof.
  unfold entry_of. destruct (Rec.birthday record) as [b|]; [|discriminate].
  destruct (birthday_this_year today (Birthday.value b)) as [occ|e] eqn:E.
  - cbn. apply birthday_this_year_ok in E as (Hv & _).
    destruct (congratulation_day_ok occ Hv) as (cd & -> & _).
    cbn. destruct (_ && _); discriminate.
  - cbn. intros [= <-]. revert E. unfold birthday_this_year, replace_year, new.
    repeat (match goal with |- context [if ?c then _ else _] => destruct c end;
            cbn; try congruence).
Qed.

Lemma upcoming_from_raises today records acc x :
  upcoming_from today records acc = Raise x ↔
  x = DateValueError ∧ ∃ r, r ∈ records ∧ entry_of today r = Raise DateValueError.
Proof.
  revert acc. induction records as [|r rs IH]; intros acc.
  - cbn. split; [discriminate|]. intros (_ & r & Hr & _). by apply elem_of_nil in Hr.
  - rewrite upcoming_from_cons.
    destruct (entry_of today r) as [[e|]|e] eqn:E.
    + rewrite IH. split; intros (-> & r' & Hin & Hr); split; auto.
      * exists r'. split; [by right|done].
      * apply elem_of_cons in Hin as [->|Hin]; [congruence|eauto].
    + rewrite IH. split; intros (-> & r' & Hin & Hr); split; auto.
      * exists r'. split; [by right|done].
      * apply elem_of_cons in Hin as [->|Hin]; [congruence|eauto].
    + pose proof (entry_of_raises _ _ _ E) as ->. split.
      * intros [= <-]. split; [done|]. exists r. split; [by left|done].
      * intros (-> & _). done.
Qed.

Lemma entry_of_some today record e :
  entry_of today record = Ok (Some e) ↔
  ∃ b occ cd, Rec.birthday record = Some b
    ∧ birthday_this_year today (Birthday.value b) = Ok occ
    ∧ 0 ≤ sub_days occ today ≤ 7
    ∧ congratulation_day occ = Ok cd
    ∧ e = Entry (Rec.name record) (strftime cd).
Proof.
  unfold entry_of. split.
  - destruct (Rec.birthday record) as [b|]; [|discriminate].
    destruct (birthday_this_year today (Birthday.value b)) as [occ|] eqn:Ho;
      [|discriminate].
    cbn. destruct (_ && _) eqn:W; [|discriminate].
    destruct (congratulation_day occ) as [cd|] eqn:Hcd; [|discriminate].
    cbn. intros [= <-]. exists b, occ, cd.
    apply andb_true_iff in W. rewrite !Z.leb_le in W.
    unfold sub_days in *. split_and!; auto; lia.
  - intros (b & occ & cd & -> & -> & W & Hcd & ->). cbn.
    rewrite (proj2 (andb_true_iff _ _)) by (rewrite !Z.leb_le; lia).
    rewrite Hcd. done.
Qed.

Lemma entry_of_raise today record x :
  entry_of today record = Raise x →
  ∃ b, Rec.birthday record = Some b
       ∧ birthday_this_year today (Birthday.value b) = Raise DateValueError.
Proof.
  intros H. pose proof (entry_of_raises _ _ _ H) as ->. revert H.
  unfold entry_of. destruct (Rec.birthday record) as [b|]; [|discriminate].
  destruct (birthday_this_year today (Birthday.value b)) as [occ|e] eqn:E.
  - cbn. apply birthday_this_year_ok in E as (Hv & _).
    destruct (congratulation_day_ok occ Hv) as (cd & -> & _).
    cbn. destruct (_ && _); discriminate.
  - cbn. intros [= ->]. eauto.
Qed.

Lemma NoDup_fmap_elem {A B} (f : A → B) (l : list A) x y :
  NoDup (f <$> l) → x ∈ l → y ∈ l → f x = f y → x = y.
Proof.
  induction l as [|a l IH]; cbn; intros Hnd Hx Hy Hf.
  - by apply elem_of_nil in Hx.
  - apply NoDup_cons in Hnd as [Hna Hnd].
    apply elem_of_cons in Hx as [->|Hx]; apply elem_of_cons in Hy as [->|Hy]; auto.
    + exfalso. apply Hna. rewrite Hf. by apply list_elem_of_fmap_2.
    + exfalso. apply Hna. rewrite <- Hf. by apply list_elem_of_fmap_2.
Qed.

Lemma upcoming_from_elem today records out e :
  upcoming_from today records [] = Ok out →
  e ∈ out ↔ ∃ r, r ∈ records ∧ entry_of today r = Ok (Some e).
Proof.
  intros H. apply upcoming_from_ok in H as (es & HF & ->). cbn.
  rewrite list_elem_of_omap. split.
  - intros (oe & Hin & Hoe). cbn in Hoe. subst oe.
    apply list_elem_of_lookup in Hin as [i Hi].
    destruct (Forall2_lookup_r _ _ _ _ _ HF Hi) as (r & Hr & Hre).
    exists r. split; [|done]. by eapply list_elem_of_lookup_2.
  - intros (r & Hin & Hr). apply list_elem_of_lookup in Hin as [i Hi].
    destruct (Forall2_lookup_l _ _ _ _ _ HF Hi) as (oe & Hoe & Hre).
    exists oe. split; [by eapply list_elem_of_lookup_2|]. cbn. congruence.
Qed.

(** C1, as the code has it.  When no stored birthday makes the date-replace
    step fail, the calculator returns a list, and a record with a birthday is
    in it iff the next occurrence of the birthday is 0 to 7 days from today:
    this year's date, or next year's date when this year's date is strictly
    before today, with at most one year added.  Seven days away is in the
    list and eight days away is not.  The records of a book have different
    names. *)
Theorem C1_upcoming_window (today : date) (book : AddressBook.t) :
  NoDup (Rec.name <$> values (data book)) →
  (∀ record b, record ∈ values (data book) → Rec.birthday record = Some b →
     ∃ occ, birthday_this_year today (Birthday.value b) = Ok occ) →
  ∃ out, get_upcoming_birthdays today book = Ok out ∧
    ∀ record b, record ∈ values (data book) → Rec.birthday record = Some b →
      ∃ occ, birthday_this_year today (Birthday.value b) = Ok occ
        ∧ month occ = month (Birthday.value b)
        ∧ day occ = day (Birthday.value b)
        ∧ year occ =
          (if lt (Date (year today) (month (Birthday.value b))
                       (day (Birthday.value b))) today
           then year today + 1 else year today)
        ∧ (Rec.name record ∈ entry_name <$> out
           ↔ 0 ≤ sub_days occ today ≤ 7).
Proof.
  intros Hnd Hall. unfold get_upcoming_birthdays.
  destruct (upcoming_from today (values (data book)) []) as [out|x] eqn:E.
  - exists out. split; [done|]. intros record b Hin Hb.
    destruct (Hall record b Hin Hb) as [occ Hocc]. exists occ.
    pose proof (birthday_this_year_ok _ _ _ Hocc) as (Hv & Hm & Hd & Hy & _).
    split_and!; auto. split.
    + intros Hname. apply list_elem_of_fmap in Hname as (e & Hne & He).
      apply (upcoming_from_elem _ _ _ _ E) in He as (r & Hr & Her).
      apply entry_of_some in Her as (b' & occ' & cd & Hb' & Hocc' & W & _ & ->).
      cbn in Hne.
      assert (record = r) as -> by (eapply NoDup_fmap_elem; eauto).
      congruence.
    + intros W. destruct (congratulation_day_ok occ Hv) as (cd & Hcd & _).
      apply list_elem_of_fmap.
      exists (Entry (Rec.name record) (strftime cd)). split; [done|].
      apply (upcoming_from_elem _ _ _ _ E). exists record. split; [done|].
      apply entry_of_some. exists b, occ, cd. auto.
  - exfalso. apply upcoming_from_raises in E as (_ & r & Hin & Hr).
    apply entry_of_raise in Hr as (b & Hb & Hr).
    destruct (Hall r b Hin Hb) as [occ Hocc]. congruence.
Qed.

(** C2.  Every entry of the list belongs to a record of the book and carries
    the rendering of a date [cd]: the birthday occurrence itself when that
    falls on Monday to Friday, the day two days later when it falls on a
    Saturday and the day one day later when it falls on a Sunday, both
    Mondays; so [cd] is never a Saturday or a Sunday. *)
Theorem C2_weekend_shift (today : date) (book : AddressBook.t)
    (out : list entry) (e : entry) :
  get_upcoming_birthdays today book = Ok out → e ∈ out →
  ∃ record b occ cd,
    record ∈ values (data book) ∧ Rec.birthday record = Some b
    ∧ entry_name e = Rec.name record
    ∧ birthday_this_year today (Birthday.value b) = Ok occ
    ∧ congratulation_date e = strftime cd ∧ valid cd
    ∧ (weekday occ < 5 → cd = occ)
    ∧ (weekday occ = 5 → toordinal cd = toordinal occ + 2 ∧ weekday cd = 0)
    ∧ (weekday occ = 6 → toordinal cd = toordinal occ + 1 ∧ weekday cd = 0)
    ∧ weekday cd < 5.
Proof.
  intros E He. apply (upcoming_from_elem _ _ _ _ E) in He as (r & Hr & Her).
  apply entry_of_some in Her as (b & occ & cd & Hb & Hocc & W & Hcd & ->).
  exists r, b, occ, cd. cbn.
  pose proof (birthday_this_year_ok _ _ _ Hocc) as (Hv & _).
  destruct (congratulation_day_ok occ Hv) as (cd' & Hcd' & Hvcd & Hwd & Hord).
  assert (cd' = cd) as -> by congruence.
  split_and!; auto.
  - intros H. rewrite congratulation_day_weekday in Hcd by done. congruence.
  - intros H. rewrite H in Hord. cbn in Hord. split; [done|].
    unfold weekday in *. rewrite Hord. Z.div_mod_to_equations. lia.
  - intros H. rewrite H in Hord. cbn in Hord. split; [done|].
    unfold weekday in *. rewrite Hord. Z.div_mod_to_equations. lia.
Qed.

Lemma new_leap_day y : is_leap y = false → new y 2 29 = Raise DateValueError.
Proof.
  intros L. unfold new, days_in_month. rewrite L.
  destruct (negb ((MINYEAR <=? y) && (y <=? MAXYEAR))); done.
Qed.

(** C10.  The calculator is not total: with a record whose birthday is
    February 29 in the book, it raises the [ValueError] of the date-replace
    step whenever the year of [today] is not a leap year, and also whenever
    February 29 of this year is before [today] and the following year is not
    a leap year. *)
Theorem C10_leap_day_raises (today : date) (book : AddressBook.t)
    (record : Rec.t) (b : Birthday.t) :
  record ∈ values (data book) → Rec.birthday record = Some b →
  month (Birthday.value b) = 2 → day (Birthday.value b) = 29 →
  is_leap (year today) = false
  ∨ (lt (Date (year today) 2 29) today = true
     ∧ is_leap (year today + 1) = false) →
  get_upcoming_birthdays today book = Raise DateValueError.
Proof.
  intros Hin Hb Hm Hd Hleap.
  assert (raises (birthday_this_year today (Birthday.value b))) as [x Hx].
  { unfold raises, birthday_this_year, replace_year. rewrite Hm, Hd.
    destruct Hleap as [L|[Hlt L]].
    - rewrite (new_leap_day _ L). cbn. eauto.
    - destruct (new (year today) 2 29) as [d|] eqn:E; [|cbn; eauto].
      apply new_valid in E as [-> _]. cbn. rewrite Hlt, (new_leap_day _ L). eauto. }
  unfold get_upcoming_birthdays.
  destruct (upcoming_from today (values (data book)) []) as [out|y] eqn:E.
  - exfalso. apply upcoming_from_ok in E as (es & HF & _).
    apply list_elem_of_lookup in Hin as [i Hi].
    destruct (Forall2_lookup_l _ _ _ _ _ HF Hi) as (oe & _ & Hoe).
    unfold entry_of in Hoe. rewrite Hb, Hx in Hoe. discriminate.
  - apply upcoming_from_raises in E as [-> _]. done.
Qed.

(** ** Parsing and rendering a birthday *)

Import Strptime.

Lemma elem_of_one ok s g r :
  (g, r) ∈ one ok s ↔ ∃ c, s = c :: r ∧ g = [c] ∧ ok c = true.
Proof.
  unfold one. destruct s as [|c s].
  - rewrite elem_of_nil. split; [done|]. intros (? & ? & _). done.
  - destruct (ok c) eqn:E.
    + rewrite list_elem_of_singleton. split.
      * intros [= -> ->]. eauto.
      * intros (c' & [= -> ->] & -> & _). done.
    + rewrite elem_of_nil. split; [done|].
      intros (c' & [= -> ->] & -> & ?). congruence.
Qed.

Lemma elem_of_seq p q s g r :
  (g, r) ∈ seq p q s ↔
  ∃ g1 g2 r1, (g1, r1) ∈ p s ∧ (g2, r) ∈ q r1 ∧ g = g1 ++ g2.
Proof.
  unfold seq. rewrite list_elem_of_bind. split.
  - intros ([g1 r1] & H & Hp). apply list_elem_of_bind in H as ([g2 r2] & H & Hq).
    apply list_elem_of_singleton in H as [= -> ->]. eauto 10.
  - intros (g1 & g2 & r1 & Hp & Hq & ->). exists (g1, r1). split; [|done].
    apply list_elem_of_bind. exists (g2, r). split; [|done].
    by apply list_elem_of_singleton.
Qed.

Lemma elem_of_alt p q s x : x ∈ alt p q s ↔ x ∈ p s ∨ x ∈ q s.
Proof. unfold alt. apply elem_of_app. Qed.

Lemma elem_of_pair p ok1 ok2 s g r :
  (∀ s g r, (g, r) ∈ p s ↔ ∃ c, s = c :: r ∧ g = [c] ∧ ok1 c = true) →
  (g, r) ∈ seq p (one ok2) s ↔
  ∃ a b, s = a :: b :: r ∧ g = [a; b] ∧ ok1 a = true ∧ ok2 b = true.
Proof.
  intros Hp. rewrite elem_of_seq. split.
  - intros (g1 & g2 & r1 & H1 & H2 & ->).
    apply Hp in H1 as (a & -> & -> & ?).
    apply elem_of_one in H2 as (b & -> & -> & ?). eauto 10.
  - intros (a & b & -> & -> & ? & ?). exists [a], [b], (b :: r).
    rewrite Hp, elem_of_one. eauto 10.
Qed.

Lemma elem_of_re_d s g r :
  (g, r) ∈ re_d s ↔ s = g ++ r ∧ is_day_text g = true.
Proof.
  unfold re_d, chr, range, decimal. rewrite !elem_of_alt.
  rewrite !(elem_of_pair _ _ _ _ _ _ (elem_of_one _)), elem_of_one.
  split.
  - intros [[[[H|H]|H]|H]|H].
    1-3, 5: destruct H as (a & b & -> & -> & Ha & Hb); split; [done|];
      unfold is_day_text; rewrite Ha, Hb; cbn; rewrite ?orb_true_r; done.
    destruct H as (a & -> & -> & Ha). done.
  - intros [-> H]. destruct g as [|a [|b [|]]]; try discriminate;
      unfold is_day_text in H.
    + left. right. eauto.
    + repeat (apply orb_true_iff in H as [H|H]); apply andb_true_iff in H as [Ha Hb].
      * left. left. left. left. eauto 10.
      * left. left. left. right. eauto 10.
      * left. left. right. eauto 10.
      * right. eauto 10.
Qed.

Lemma elem_of_re_m s g r :
  (g, r) ∈ re_m s ↔ s = g ++ r ∧ is_month_text g = true.
Proof.
  unfold re_m, chr, range. rewrite !elem_of_alt.
  rewrite !(elem_of_pair _ _ _ _ _ _ (elem_of_one _)), elem_of_one.
  split.
  - intros [[H|H]|H].
    1-2: destruct H as (a & b & -> & -> & Ha & Hb); split; [done|];
      unfold is_month_text; rewrite Ha, Hb; cbn; rewrite ?orb_true_r; done.
    destruct H as (a & -> & -> & Ha). done.
  - intros [-> H]. destruct g as [|a [|b [|]]]; try discriminate;
      unfold is_month_text in H.
    + right. eauto.
    + repeat (apply orb_true_iff in H as [H|H]); apply andb_true_iff in H as [Ha Hb].
      * left. left. eauto 10.
      * left. right. eauto 10.
Qed.

Lemma elem_of_re_Y s g r :
  (g, r) ∈ re_Y s ↔ s = g ++ r ∧ is_year_text g = true.
Proof.
  unfold re_Y, decimal. split.
  - intros H. apply elem_of_seq in H as (g3 & g4 & r3 & H & H4 & ->).
    apply elem_of_seq in H as (g2 & g3' & r2 & H & H3 & ->).
    apply elem_of_seq in H as (g1 & g2' & r1 & H1 & H2 & ->).
    apply elem_of_one in H1 as (a & -> & -> & Ha).
    apply elem_of_one in H2 as (b & -> & -> & Hb).
    apply elem_of_one in H3 as (c & -> & -> & Hc).
    apply elem_of_one in H4 as (d & -> & -> & Hd).
    split; [done|]. cbn [app]. unfold is_year_text. cbn [forallb].
    rewrite Ha, Hb, Hc, Hd. done.
  - intros [-> H]. destruct g as [|a [|b [|c [|d [|]]]]]; try discriminate.
    unfold is_year_text in H. cbn [forallb] in H.
    rewrite !andb_true_iff in H. destruct H as (Ha & Hb & Hc & Hd & _).
    apply elem_of_seq.
    exists [a; b; c], [d], (d :: r). split_and!; [|apply elem_of_one; eauto|done].
    apply elem_of_seq.
    exists [a; b], [c], (c :: d :: r). split_and!; [|apply elem_of_one; eauto|done].
    apply elem_of_seq.
    exists [a], [b], (b :: c :: d :: r). split_and!; [| |done]; apply elem_of_one; eauto.
Qed.

Lemma elem_of_matches s d m Y r :
  (d, m, Y, r) ∈ matches s ↔
  s = d ++ 46 :: m ++ 46 :: Y ++ r
  ∧ is_day_text d = true ∧ is_month_text m = true ∧ is_year_text Y = true.
Proof.
  unfold matches. split.
  - intros H.
    apply list_elem_of_bind in H as ([d' r1] & H & Hd).
    apply list_elem_of_bind in H as ([p1 r2] & H & Hp1).
    apply list_elem_of_bind in H as ([m' r3] & H & Hm).
    apply list_elem_of_bind in H as ([p2 r4] & H & Hp2).
    apply list_elem_of_bind in H as ([Y' r5] & H & HY).
    apply list_elem_of_singleton in H as [= -> -> -> ->].
    apply elem_of_re_d in Hd as [-> Hd]. apply elem_of_re_m in Hm as [-> Hm].
    apply elem_of_re_Y in HY as [-> HY].
    apply elem_of_one in Hp1 as (c1 & -> & -> & E1%Z.eqb_eq).
    apply elem_of_one in Hp2 as (c2 & -> & -> & E2%Z.eqb_eq).
    subst. done.
  - intros (-> & Hd & Hm & HY).
    apply list_elem_of_bind. exists (d, 46 :: m ++ 46 :: Y ++ r).
    split; [|by apply elem_of_re_d].
    apply list_elem_of_bind. exists ([46], m ++ 46 :: Y ++ r).
    split; [|apply elem_of_one; eauto].
    apply list_elem_of_bind. exists (m, 46 :: Y ++ r).
    split; [|by apply elem_of_re_m].
    apply list_elem_of_bind. exists ([46], Y ++ r).
    split; [|apply elem_of_one; eauto].
    apply list_elem_of_bind. exists (Y, r).
    split; [|by apply elem_of_re_Y].
    by apply list_elem_of_singleton.
Qed.

Lemma day_text_no_dot g : is_day_text g = true → 46 ∉ g.
Proof.
  destruct g as [|a [|b [|]]]; try discriminate; unfold is_day_text;
    intros H Hin; repeat (apply elem_of_cons in Hin as [<-|Hin]);
    try (by apply elem_of_nil in Hin); try discriminate.
  destruct (51 =? a), (inrange 49 50 a), (48 =? a), (32 =? a); discriminate.
Qed.

Lemma month_text_no_dot g : is_month_text g = true → 46 ∉ g.
Proof.
  destruct g as [|a [|b [|]]]; try discriminate; unfold is_month_text;
    intros H Hin; repeat (apply elem_of_cons in Hin as [<-|Hin]);
    try (by apply elem_of_nil in Hin); try discriminate.
  destruct (49 =? a), (48 =? a); discriminate.
Qed.

Lemma year_text_length g : is_year_text g = true → length g = 4%nat.
Proof. destruct g as [|a [|b [|c [|d [|]]]]]; done. Qed.

Lemma app_cons_unique (x : Z) l1 r1 l2 r2 :
  x ∉ l1 → x ∉ l2 → l1 ++ x :: r1 = l2 ++ x :: r2 → l1 = l2 ∧ r1 = r2.
Proof.
  revert l2. induction l1 as [|a l1 IH]; intros [|b l2] H1 H2; cbn.
  - intros [= ->]. done.
  - intros [= <- _]. exfalso. apply H2. by left.
  - intros [= -> _]. exfalso. apply H1. by left.
  - intros [= -> H]. apply IH in H as [-> ->]; [done| |].
    + intros ?. apply H1. by right.
    + intros ?. apply H2. by right.
Qed.

Lemma matches_unique s x y : x ∈ matches s → y ∈ matches s → x = y.
Proof.
  destruct x as [[[d m] Y] r], y as [[[d' m'] Y'] r'].
  intros (-> & Hd & Hm & HY)%elem_of_matches (E & Hd' & Hm' & HY')%elem_of_matches.
  apply app_cons_unique in E as [<- E]; auto using day_text_no_dot.
  apply app_cons_unique in E as [<- E]; auto using month_text_no_dot.
  apply app_inj_1 in E as [<- <-]; [done|].
  apply year_text_length in HY, HY'. congruence.
Qed.

Lemma strptime_ok s x :
  strptime s = Ok x ↔
  ∃ d m Y, s = d ++ 46 :: m ++ 46 :: Y
    ∧ is_day_text d = true ∧ is_month_text m = true ∧ is_year_text Y = true
    ∧ new (int Y) (int m) (int d) = Ok x.
Proof.
  unfold strptime. split.
  - destruct (matches s) as [|[[[d m] Y] r] l] eqn:E; [discriminate|].
    assert ((d, m, Y, r) ∈ matches s) as H by (rewrite E; by left).
    apply elem_of_matches in H as (-> & Hd & Hm & HY).
    destruct r as [|c r]; [|cbn; discriminate]. cbn. rewrite app_nil_r.
    intros Hn. exists d, m, Y. done.
  - intros (d & m & Y & -> & Hd & Hm & HY & Hnew).
    assert ((d, m, Y, []) ∈ matches (d ++ 46 :: m ++ 46 :: Y)) as H.
    { apply elem_of_matches. by rewrite app_nil_r. }
    destruct (matches _) as [|q l] eqn:E; [by apply elem_of_nil in H|].
    assert (q = (d, m, Y, [])) as ->.
    { apply (matches_unique (d ++ 46 :: m ++ 46 :: Y)); rewrite E;
        [by left|done]. }
    done.
Qed.

Lemma ascii_digit_range c : Unicode.ascii_digit c = true ↔ 48 ≤ c ≤ 57.
Proof. unfold Unicode.ascii_digit. rewrite andb_true_iff, !Z.leb_le. done. Qed.

Lemma isdecimal_ascii c : 48 ≤ c ≤ 57 → Unicode.isdecimal c = true.
Proof.
  intros H. unfold Unicode.isdecimal, Unicode.DECIMAL. cbn [existsb].
  unfold Unicode.between at 1. cbn [fst snd].
  rewrite (proj2 (andb_true_iff _ _)) by (rewrite !Z.leb_le; lia). done.
Qed.

Lemma decimal_value_ascii c : 48 ≤ c ≤ 57 → Unicode.decimal_value c = c - 48.
Proof.
  intros H. unfold Unicode.decimal_value, Unicode.DECIMAL. cbn [List.find].
  unfold Unicode.between at 1. cbn [fst snd].
  rewrite (proj2 (andb_true_iff _ _)) by (rewrite !Z.leb_le; lia).
  cbn [fst]. Z.div_mod_to_equations. lia.
Qed.

Lemma int_ascii ds : Forall (λ c, 48 ≤ c ≤ 57) ds → int ds = number ds.
Proof.
  unfold int, number. generalize 0. induction ds as [|c ds IH]; intros acc H.
  - done.
  - apply Forall_cons in H as [Hc H].
    rewrite filter_cons_True by lia. cbn [foldl].
    rewrite decimal_value_ascii by done. by apply IH.
Qed.

Lemma pad2_number a b :
  48 ≤ a ≤ 57 → 48 ≤ b ≤ 57 → pad2 (number [a; b]) = [a; b].
Proof.
  intros Ha Hb. unfold pad2, number, digit. cbn [foldl].
  f_equal; [|f_equal]; Z.div_mod_to_equations; lia.
Qed.

Lemma year_text_number a b c d :
  48 ≤ a ≤ 57 → 48 ≤ b ≤ 57 → 48 ≤ c ≤ 57 → 48 ≤ d ≤ 57 →
  1000 ≤ number [a; b; c; d] →
  year_text (number [a; b; c; d]) = [a; b; c; d].
Proof.
  intros Ha Hb Hc Hd Hn. unfold year_text.
  rewrite !(proj2 (Z.ltb_ge _ _)) by lia.
  unfold number, digit in *. cbn [foldl] in *.
  f_equal; [|f_equal; [|f_equal; [|f_equal]]]; Z.div_mod_to_equations; lia.
Qed.

Lemma year_text_short n : n < 1000 → (length (year_text n) < 4)%nat.
Proof.
  intros Hn. unfold year_text.
  destruct (n <? 10); [cbn; lia|]. destruct (n <? 100); [cbn; lia|].
  rewrite (proj2 (Z.ltb_lt _ _)) by lia. cbn. lia.
Qed.

Lemma year_text_digits n :
  0 ≤ n ≤ 9999 → Forall (λ c, 48 ≤ c ≤ 57) (year_text n).
Proof.
  intros Hn. unfold year_text, digit.
  destruct (Z.ltb_spec n 10); [|destruct (Z.ltb_spec n 100);
    [|destruct (Z.ltb_spec n 1000)]];
    repeat constructor; Z.div_mod_to_equations; lia.
Qed.

Lemma days_in_month_le_31 y m : 1 ≤ m ≤ 12 → days_in_month y m ≤ 31.
Proof.
  intros Hm. unfold days_in_month.
  month_cases m; destruct (is_leap y); eval_items; lia.
Qed.

Lemma init_digits d1 d2 m1 m2 y1 y2 y3 y4 :
  Forall (λ c, Unicode.ascii_digit c = true) [d1; d2; m1; m2; y1; y2; y3; y4] →
  valid (Date (number [y1; y2; y3; y4]) (number [m1; m2]) (number [d1; d2])) →
  Birthday.init [d1; d2; 46; m1; m2; 46; y1; y2; y3; y4]
  = Ok (Birthday.New (Date (number [y1; y2; y3; y4]) (number [m1; m2])
                           (number [d1; d2]))).
Proof.
  intros Hdig Hv.
  rewrite !Forall_cons in Hdig. rewrite !ascii_digit_range in Hdig.
  destruct Hdig as (Hd1 & Hd2 & Hm1 & Hm2 & Hy1 & Hy2 & Hy3 & Hy4 & _).
  pose proof Hv as (Hy & Hm & Hd). cbn [year month day] in Hy, Hm, Hd.
  pose proof (days_in_month_le_31 (number [y1; y2; y3; y4]) _ Hm) as H31.
  unfold Birthday.init.
  assert (strptime [d1; d2; 46; m1; m2; 46; y1; y2; y3; y4]
          = Ok (Date (number [y1; y2; y3; y4]) (number [m1; m2])
                     (number [d1; d2]))) as ->; [|done].
  apply strptime_ok. exists [d1; d2], [m1; m2], [y1; y2; y3; y4].
  split; [done|].
  rewrite !int_ascii by (repeat constructor; lia).
  split_and!.
  - unfold is_day_text, inrange. unfold number in Hd, H31. cbn [foldl] in Hd, H31.
    rewrite (isdecimal_ascii d2) by lia.
    apply orb_true_iff.
    destruct (Z.eq_dec d1 51) as [->|]; [left; apply orb_true_iff; left;
      apply orb_true_iff; left; rewrite !andb_true_iff, Z.eqb_eq, !Z.leb_le; lia|].
    destruct (Z.eq_dec d1 48) as [->|]; [left; apply orb_true_iff; right;
      rewrite !andb_true_iff, Z.eqb_eq, !Z.leb_le; lia|].
    left. apply orb_true_iff. left. apply orb_true_iff. right.
    rewrite !andb_true_iff, !Z.leb_le. lia.
  - unfold is_month_text, inrange. unfold number in Hm. cbn [foldl] in Hm.
    apply orb_true_iff. rewrite !andb_true_iff, !Z.eqb_eq, !Z.leb_le. lia.
  - unfold is_year_text. cbn [forallb].
    rewrite !isdecimal_ascii by lia. done.
  - apply new_ok; done.
Qed.

Lemma to_str_digits d1 d2 m1 m2 y1 y2 y3 y4 :
  Forall (λ c, Unicode.ascii_digit c = true) [d1; d2; m1; m2; y1; y2; y3; y4] →
  Birthday.to_str
    (Birthday.New (Date (number [y1; y2; y3; y4]) (number [m1; m2])
                        (number [d1; d2])))
  = [d1; d2; 46; m1; m2; 46] ++ year_text (number [y1; y2; y3; y4]).
Proof.
  intros Hdig. rewrite !Forall_cons in Hdig. rewrite !ascii_digit_range in Hdig.
  destruct Hdig as (Hd1 & Hd2 & Hm1 & Hm2 & _).
  unfold Birthday.to_str, strftime. cbn [Birthday.value year month day].
  rewrite !pad2_number by lia. done.
Qed.

Lemma to_str_round_trip d1 d2 m1 m2 y1 y2 y3 y4 :
  Forall (λ c, Unicode.ascii_digit c = true) [d1; d2; m1; m2; y1; y2; y3; y4] →
  Birthday.to_str
    (Birthday.New (Date (number [y1; y2; y3; y4]) (number [m1; m2])
                        (number [d1; d2])))
  = [d1; d2; 46; m1; m2; 46; y1; y2; y3; y4]
  ↔ 1000 ≤ number [y1; y2; y3; y4].
Proof.
  intros Hdig. rewrite (to_str_digits _ _ _ _ _ _ _ _ Hdig).
  rewrite !Forall_cons in Hdig. rewrite !ascii_digit_range in Hdig.
  destruct Hdig as (_ & _ & _ & _ & Hy1 & Hy2 & Hy3 & Hy4 & _). split.
  - intros E. destruct (Z.le_gt_cases 1000 (number [y1; y2; y3; y4])) as [|Hn];
      [done|].
    apply year_text_short in Hn. apply (f_equal length) in E.
    rewrite length_app in E. cbn [length] in E. lia.
  - intros Hn. by rewrite year_text_number.
Qed.

(** C5, as the code has it.  A text DD.MM.YYYY that names a day of the
    calendar is parsed into a birthday, and rendering the birthday gives the
    text back exactly when the year is 1000 or later: day and month are
    rendered with two digits, the year without zeros in front. *)
Theorem C5_birthday_round_trip (s : str) :
  real_date_text s →
  ∃ b, Birthday.init s = Ok b
    ∧ year (Birthday.value b) = number (drop 6 s)
    ∧ (Birthday.to_str b = s ↔ 1000 ≤ year (Birthday.value b)).
Proof.
  intros (d1 & d2 & m1 & m2 & y1 & y2 & y3 & y4 & -> & Hdig & Hv).
  eexists. split; [by apply init_digits|]. split; [done|].
  cbn [Birthday.value year]. by apply to_str_round_trip.
Qed.

(** C5 fails as stated: 15 June of the year 990, written DD.MM.YYYY, comes
    back with a year of three characters. *)
Lemma C5_year_before_1000_not_restored :
  real_date_text (lit "15.06.0990")
  ∧ Birthday.init (lit "15.06.0990") = Ok (Birthday.New (Date 990 6 15))
  ∧ Birthday.to_str (Birthday.New (Date 990 6 15)) = lit "15.06.990"
  ∧ Birthday.to_str (Birthday.New (Date 990 6 15)) ≠ lit "15.06.0990".
Proof.
  split_and!; [|vm_compute; reflexivity|vm_compute; reflexivity|vm_compute; discriminate].
  exists 49, 53, 48, 54, 48, 57, 57, 48. split_and!.
  - reflexivity.
  - repeat constructor.
  - repeat split; vm_compute; congruence.
Qed.

(** C3, as the code has it.  A birthday is built from exactly the texts
    D.M.Y, with the two dots, in which D is a text that [%d] accepts (30 or
    31; 1 or 2 and a decimal digit of any script; 0 and one of 1 to 9; one of
    1 to 9 alone; a blank and one of 1 to 9), M one that [%m] accepts (10, 11
    or 12; 0 and one of 1 to 9; one of 1 to 9 alone) and Y four decimal
    digits, each of any script, and in which the numbers so written are a
    day of the calendar; the birthday holds that day.  Zero padding is not
    required.  Every other text fails with [InvalidBirthday], and
    [add_birthday] leaves the record as it was. *)
Theorem C3_birthday_accepted (s : str) :
  (∀ b, Birthday.init s = Ok b ↔
     ∃ d m Y, s = d ++ 46 :: m ++ 46 :: Y
       ∧ is_day_text d = true ∧ is_month_text m = true ∧ is_year_text Y = true
       ∧ valid (Date (int Y) (int m) (int d))
       ∧ Birthday.value b = Date (int Y) (int m) (int d))
  ∧ (∀ e, Birthday.init s = Raise e →
       e = InvalidBirthday
       ∧ ∀ self, Rec.add_birthday s self = (Raise InvalidBirthday, self)).
Proof.
  split.
  - intros b.
    assert (Birthday.init s = Ok b ↔ strptime s = Ok (Birthday.value b)) as ->.
    { unfold Birthday.init.
      destruct (strptime s) as [x|]; split; try discriminate.
      - intros [= <-]. done.
      - intros [= ->]. by destruct b. }
    rewrite strptime_ok. split.
    + intros (d & m & Y & -> & Hd & Hm & HY & [E Hv]%new_valid).
      exists d, m, Y. rewrite E in Hv. done.
    + intros (d & m & Y & -> & Hd & Hm & HY & (Hy & Hmo & Hda) & ->).
      exists d, m, Y. split_and!; try done. by apply new_ok.
  - intros e He.
    assert (e = InvalidBirthday) as ->.
    { revert He. unfold Birthday.init. destruct (strptime s); congruence. }
    split; [done|]. intros self. unfold Rec.add_birthday. by rewrite He.
Qed.

(** C3 fails as stated: the date 5 June 1990 written without zero padding
    is accepted. *)
Lemma C3_unpadded_date_accepted :
  Birthday.init (lit "5.6.1990") = Ok (Birthday.New (Date 1990 6 5)).
Proof. vm_compute. reflexivity. Qed.

(** Where the pattern of a directive has [\d], a decimal digit of any script
    is taken; elsewhere only the characters that the pattern names.  With
    the Arabic-Indic digits one (1633) and five (1637): 1 and then five is
    the day 15, one and then five is no day. *)
Lemma birthday_digits_of_other_scripts :
  Birthday.init ([49; 1637] ++ lit ".06.1990") = Ok (Birthday.New (Date 1990 6 15))
  ∧ Birthday.init ([1633; 1637] ++ lit ".06.1990") = Raise InvalidBirthday
  ∧ Birthday.init (lit "15.06." ++ [1633; 1641; 1641; 1632])
    = Ok (Birthday.New (Date 1990 6 15)).
Proof. vm_compute. done. Qed.

(** ** Phones, records and the book *)

Lemma str_isdigit_spec s :
  str_isdigit s = true ↔ s ≠ [] ∧ Forall (λ c, Unicode.isdigit c = true) s.
Proof.
  destruct s as [|c s].
  - cbn. split; [discriminate|]. intros [? _]. done.
  - unfold str_isdigit. rewrite forallb_forall, Forall_forall.
    setoid_rewrite list_elem_of_In. split; [|intros [_ ?]]; done.
Qed.

Lemma validate_spec s :
  Phone.validate s = true ↔
  length s = 10%nat ∧ Forall (λ c, Unicode.isdigit c = true) s.
Proof.
  unfold Phone.validate. rewrite andb_true_iff, Z.eqb_eq, str_isdigit_spec.
  split.
  - intros (Hl & _ & H). split; [lia|done].
  - intros (Hl & H). split_and!; [lia| |done]. intros ->. done.
Qed.

Lemma existsb_between_high c l :
  c < 128 → forallb (λ r, 128 <=? r.1) l = true →
  existsb (Unicode.between c) l = false.
Proof.
  intros Hc. induction l as [|r l IH]; [done|]. cbn [forallb existsb].
  intros [Hr Hl]%andb_true_iff. rewrite IH by done.
  unfold Unicode.between. apply Z.leb_le in Hr.
  rewrite (proj2 (Z.leb_gt _ _)) by lia. done.
Qed.

Lemma isdigit_ascii c : c < 128 → Unicode.isdigit c = Unicode.ascii_digit c.
Proof.
  intros Hc. unfold Unicode.isdigit, Unicode.isdecimal.
  change Unicode.DECIMAL with ((48, 57) :: tail Unicode.DECIMAL).
  change (existsb (Unicode.between c) ((48, 57) :: tail Unicode.DECIMAL))
    with (Unicode.between c (48, 57)
          || existsb (Unicode.between c) (tail Unicode.DECIMAL)).
  rewrite !(existsb_between_high c) by (done || (vm_compute; reflexivity)).
  rewrite !orb_false_r. reflexivity.
Qed.

Lemma validate_ascii s :
  Forall (λ c, c < 128) s →
  Phone.validate s = true ↔
  length s = 10%nat ∧ Forall (λ c, Unicode.ascii_digit c = true) s.
Proof.
  intros Hs. rewrite validate_spec. rewrite !Forall_forall in *.
  split; intros [Hl H]; (split; [done|]); intros c Hin.
  - rewrite <- isdigit_ascii by auto. auto.
  - rewrite isdigit_ascii by auto. auto.
Qed.

(** C4, as the code has it.  The validator is true iff the string has ten
    characters and each is a digit for [str.isdigit], that is a character
    whose Numeric_Type is Digit or Decimal; for ASCII strings this is the ten
    characters 0 to 9.  When it is false the construction of the phone raises
    [InvalidPhone]. *)
Theorem C4_phone_validate (s : str) :
  (Phone.validate s = true ↔
   length s = 10%nat ∧ Forall (λ c, Unicode.isdigit c = true) s)
  ∧ (Forall (λ c, c < 128) s →
     Phone.validate s = true ↔
     length s = 10%nat ∧ Forall (λ c, Unicode.ascii_digit c = true) s)
  ∧ (Phone.validate s = false → Phone.init s = Raise InvalidPhone)
  ∧ (Phone.validate s = true → Phone.init s = Ok (Phone.New s)).
Proof.
  split_and!.
  - apply validate_spec.
  - apply validate_ascii.
  - intros H. unfold Phone.init. by rewrite H.
  - intros H. unfold Phone.init. by rewrite H.
Qed.

(** C4 fails as stated: nine digits followed by a superscript two (U+00B2),
    which is no decimal digit, pass the validator. *)
Lemma C4_superscript_digit_accepted :
  let s := lit "123456789" ++ [178] in
  Phone.validate s = true ∧ Phone.init s = Ok (Phone.New s)
  ∧ Unicode.ascii_digit 178 = false ∧ Unicode.isdecimal 178 = false.
Proof. vm_compute. done. Qed.

(** ** Records *)

Lemma edit_phone_from_found i rest old new self k p :
  rest !! k = Some p → Phone.value p = old →
  (∀ j q, (j < k)%nat → rest !! j = Some q → Phone.value q ≠ old) →
  Rec.edit_phone_from i rest old new self =
  if Phone.validate new
  then (Ok (), Rec.set_phones (<[(i + k)%nat := Phone.New new]> (Rec.phones self)) self)
  else (Raise InvalidPhone, self).
Proof.
  revert i k. induction rest as [|q rest IH]; intros i k Hk Hp Hfirst; [done|].
  cbn [Rec.edit_phone_from]. destruct k as [|k].
  - cbn in Hk. injection Hk as ->. rewrite decide_True by done.
    rewrite Nat.add_0_r. by destruct (Phone.validate new).
  - rewrite decide_False by (apply (Hfirst 0%nat); [lia|done]).
    rewrite (IH (S i) k); [|done|done|].
    + by rewrite Nat.add_succ_r.
    + intros j q' Hj. apply (Hfirst (S j)). lia.
Qed.

Lemma edit_phone_from_missing i rest old new self :
  (∀ p, p ∈ rest → Phone.value p ≠ old) →
  Rec.edit_phone_from i rest old new self = (Raise (PhoneNotFound old), self).
Proof.
  revert i. induction rest as [|q rest IH]; intros i H; [done|].
  cbn [Rec.edit_phone_from].
  rewrite decide_False by (apply H; by left).
  apply IH. intros p Hp. apply H. by right.
Qed.

(** C6.  When the first phone equal to [old_phone] is at index [i]: a valid
    [new_phone] replaces it there, with the length and every other position
    of the list unchanged, and an invalid one raises [InvalidPhone] and
    leaves the record as it was.  When no phone equals [old_phone] the call
    raises [PhoneNotFound] and leaves the record as it was. *)
Theorem C6_edit_phone (self : Rec.t) (old_phone new_phone : str) :
  (∀ i, first_at old_phone (Rec.phones self) i →
     (Phone.validate new_phone = true →
      ∃ self', Rec.edit_phone old_phone new_phone self = (Ok (), self')
        ∧ Rec.name self' = Rec.name self
        ∧ Rec.birthday self' = Rec.birthday self
        ∧ length (Rec.phones self') = length (Rec.phones self)
        ∧ Rec.phones self' !! i = Some (Phone.New new_phone)
        ∧ ∀ j, j ≠ i → Rec.phones self' !! j = Rec.phones self !! j)
     ∧ (Phone.validate new_phone = false →
        Rec.edit_phone old_phone new_phone self = (Raise InvalidPhone, self)))
  ∧ ((∀ p, p ∈ Rec.phones self → Phone.value p ≠ old_phone) →
     Rec.edit_phone old_phone new_phone self
     = (Raise (PhoneNotFound old_phone), self)).
Proof.
  split.
  - intros i [(p & Hi & Hp) Hfirst]. unfold Rec.edit_phone.
    rewrite (edit_phone_from_found 0 _ _ _ _ i p Hi Hp Hfirst). cbn [Nat.add].
    split; intros ->; [|done].
    eexists. split; [done|]. cbn. split_and!; try done.
    + apply length_insert.
    + apply list_lookup_insert_eq. by eapply lookup_lt_Some.
    + intros j Hj. by apply list_lookup_insert_ne.
  - apply edit_phone_from_missing.
Qed.

Lemma edit_phone_raises old new self e :
  (Rec.edit_phone old new self).1 = Raise e → (Rec.edit_phone old new self).2 = self.
Proof.
  unfold Rec.edit_phone. generalize 0%nat. generalize (Rec.phones self).
  induction l as [|p l IH]; intros i; [done|]. cbn [Rec.edit_phone_from].
  destruct (decide _); [|apply IH].
  destruct (negb _); [done|discriminate].
Qed.

Lemma run_raises c self e : (run c self).1 = Raise e → (run c self).2 = self.
Proof.
  destruct c as [phone|phone|old new|birthday]; cbn [run].
  - unfold Rec.add_phone. by destruct (Phone.init phone).
  - discriminate.
  - apply edit_phone_raises.
  - unfold Rec.add_birthday. by destruct (Birthday.init birthday).
Qed.

(** C7.  [add_phone] with an invalid phone raises [InvalidPhone] and
    [add_birthday] with a text the parser rejects raises [InvalidBirthday],
    both leaving the record exactly as it was; and so does every call on a
    record that raises. *)
Theorem C7_failure_leaves_record (self : Rec.t) :
  (∀ phone, Phone.validate phone = false →
     Rec.add_phone phone self = (Raise InvalidPhone, self))
  ∧ (∀ birthday, (∀ d, Strptime.strptime birthday ≠ Ok d) →
       Rec.add_birthday birthday self = (Raise InvalidBirthday, self))
  ∧ (∀ c e, (run c self).1 = Raise e → (run c self).2 = self).
Proof.
  split_and!.
  - intros phone H. unfold Rec.add_phone, Phone.init. by rewrite H.
  - intros birthday H. unfold Rec.add_birthday, Birthday.init.
    destruct (Strptime.strptime birthday) as [d|]; [by destruct (H d)|done].
  - intros c e. apply run_raises.
Qed.

(** ** The dict of the book *)

Lemma get_None key d : AddressBook.get key d = None ↔ key ∉ d.*1.
Proof.
  induction d as [|[k v] d IH]; cbn.
  - split; [intros _; apply not_elem_of_nil|done].
  - rewrite not_elem_of_cons. destruct (decide (k = key)) as [->|Hne].
    + split; [discriminate|]. intros [? _]. done.
    + rewrite IH. split; [intros ?; split; [congruence|done]|intros [_ ?]; done].
Qed.

Lemma contains_get key d :
  AddressBook.contains key d = false ↔ AddressBook.get key d = None.
Proof.
  unfold AddressBook.contains. rewrite get_None.
  rewrite bool_decide_eq_false. done.
Qed.

Lemma get_delitem key key' d :
  AddressBook.get key' (AddressBook.delitem key d) =
  if decide (key' = key) then None else AddressBook.get key' d.
Proof.
  unfold AddressBook.delitem. induction d as [|[k v] d IH].
  - cbn. by destruct (decide _).
  - rewrite filter_cons. cbn [fst AddressBook.get].
    destruct (decide (k ≠ key)) as [Hne|Heq].
    + cbn [AddressBook.get]. rewrite IH.
      destruct (decide (k = key')) as [->|?]; [|done].
      by rewrite decide_False by congruence.
    + apply dec_stable in Heq as ->. rewrite IH.
      destruct (decide (key' = key)) as [->|?]; [done|].
      by rewrite decide_False by congruence.
Qed.

Lemma delitem_absent key d : key ∉ d.*1 → AddressBook.delitem key d = d.
Proof.
  unfold AddressBook.delitem. induction d as [|[k v] d IH]; [done|].
  rewrite fmap_cons, not_elem_of_cons. cbn [fst]. intros [Hne Hd].
  rewrite filter_cons_True by (cbn; congruence). by rewrite IH.
Qed.

Lemma get_setitem key key' v d :
  AddressBook.get key' (AddressBook.setitem key v d) =
  if decide (key' = key) then Some v else AddressBook.get key' d.
Proof.
  induction d as [|[k w] d IH]; cbn.
  - destruct (decide (key = key')) as [->|?].
    + by rewrite decide_True.
    + by rewrite decide_False by congruence.
  - destruct (decide (k = key)) as [->|Hne]; cbn.
    + destruct (decide (key = key')) as [->|?].
      * by rewrite decide_True.
      * by rewrite decide_False by congruence.
    + rewrite IH. destruct (decide (k = key')) as [->|?]; [|done].
      by rewrite decide_False by congruence.
Qed.

(** C8.  [delete] never raises: it removes the entry of the name, keeps all
    others, and leaves the book as it was when the name is absent.
    [remove_phone] never raises: it removes exactly the phones whose value
    equals [raw], keeps the others in order, and leaves the record as it was
    when none matches. *)
Theorem C8_missing_target_removals :
  (∀ name book,
     (AddressBook.delete name book).1 = Ok ()
     ∧ AddressBook.find name (AddressBook.delete name book).2 = None
     ∧ (∀ other, other ≠ name →
          AddressBook.find other (AddressBook.delete name book).2
          = AddressBook.find other book)
     ∧ (AddressBook.find name book = None →
        (AddressBook.delete name book).2 = book))
  ∧ (∀ raw self,
       (Rec.remove_phone raw self).1 = Ok ()
       ∧ Rec.name (Rec.remove_phone raw self).2 = Rec.name self
       ∧ Rec.birthday (Rec.remove_phone raw self).2 = Rec.birthday self
       ∧ (∀ p, p ∈ Rec.phones (Rec.remove_phone raw self).2
               ↔ p ∈ Rec.phones self ∧ Phone.value p ≠ raw)
       ∧ Rec.phones (Rec.remove_phone raw self).2 `sublist_of` Rec.phones self
       ∧ ((∀ p, p ∈ Rec.phones self → Phone.value p ≠ raw) →
          (Rec.remove_phone raw self).2 = self)).
Proof.
  split.
  - intros name book. unfold AddressBook.delete, AddressBook.find.
    destruct (AddressBook.contains name (AddressBook.data book)) eqn:E; cbn.
    + split_and!; [done| | |].
      * rewrite get_delitem. by rewrite decide_True.
      * intros other Hne. rewrite get_delitem. by rewrite decide_False.
      * intros H. apply contains_get in H. congruence.
    + apply contains_get in E. split_and!; done.
  - intros raw self. unfold Rec.remove_phone. cbn. split_and!; try done.
    + intros p. rewrite list_elem_of_filter. tauto.
    + apply sublist_filter.
    + intros H. destruct self as [n ps b]. cbn in *. unfold Rec.set_phones. cbn.
      f_equal. clear -H. induction ps as [|p ps IH]; [done|].
      rewrite filter_cons_True by (apply H; by left).
      f_equal. apply IH. intros q Hq. apply H. by right.
Qed.

(** ** Reachable states *)

Lemma run_phones_valid c self : phones_valid self → phones_valid (run c self).2.
Proof.
  unfold phones_valid. intros H. destruct c as [phone|phone|old new|birthday]; cbn [run].
  - unfold Rec.add_phone, Phone.init.
    destruct (Phone.validate phone) eqn:E; cbn; [|done].
    apply Forall_app. split; [done|]. by repeat constructor.
  - cbn. rewrite !Forall_forall in *. intros p Hp%list_elem_of_filter.
    apply H, Hp.
  - unfold Rec.edit_phone. generalize 0%nat. generalize (Rec.phones self) at 1.
    induction l as [|p l IH]; intros i; [done|]. cbn [Rec.edit_phone_from].
    destruct (decide _); [|apply IH].
    destruct (Phone.validate new) eqn:E; cbn; [|done].
    apply Forall_insert; done.
  - unfold Rec.add_birthday. by destruct (Birthday.init birthday).
Qed.

Lemma reachable_phones_valid self : reachable self → phones_valid self.
Proof.
  induction 1 as [name|c self _ IH].
  - constructor.
  - by apply run_phones_valid.
Qed.

Lemma elem_of_values_setitem r key v d :
  r ∈ AddressBook.values (AddressBook.setitem key v d) →
  r = v ∨ r ∈ AddressBook.values d.
Proof.
  unfold AddressBook.values. induction d as [|[k w] d IH]; cbn.
  - intros ?%list_elem_of_singleton. by left.
  - destruct (decide (k = key)) as [->|Hne]; cbn; rewrite !elem_of_cons.
    + intros [->|?]; auto.
    + intros [->|?]; [auto|]. destruct IH as [?|?]; auto.
Qed.

Lemma elem_of_values_delitem r key d :
  r ∈ AddressBook.values (AddressBook.delitem key d) → r ∈ AddressBook.values d.
Proof.
  unfold AddressBook.values, AddressBook.delitem.
  rewrite !list_elem_of_fmap. intros ([k v] & -> & H%list_elem_of_filter).
  exists (k, v). tauto.
Qed.

Lemma elem_of_values_get key d r :
  AddressBook.get key d = Some r → r ∈ AddressBook.values d.
Proof.
  unfold AddressBook.values. induction d as [|[k w] d IH]; cbn; [done|].
  destruct (decide (k = key)); [intros [= ->]; by left|].
  intros ?. right. auto.
Qed.

(** C9.  In every record and in every book that the operations can reach,
    every stored phone satisfies the validator. *)
Theorem C9_stored_phones_valid :
  (∀ self, reachable self → phones_valid self)
  ∧ (∀ book, book_reachable book →
       ∀ record, record ∈ AddressBook.values (AddressBook.data book) →
                 phones_valid record).
Proof.
  split; [apply reachable_phones_valid|].
  induction 1 as [|record book Hr _ IH|name book _ IH|name c record book _ IH Hf];
    intros r Hin.
  - by apply elem_of_nil in Hin.
  - cbn in Hin. apply elem_of_values_setitem in Hin as [->|Hin]; [|auto].
    by apply reachable_phones_valid.
  - unfold AddressBook.delete in Hin.
    destruct (AddressBook.contains _ _); cbn in Hin; [|auto].
    apply elem_of_values_delitem in Hin. auto.
  - cbn in Hin. apply elem_of_values_setitem in Hin as [->|Hin]; [|auto].
    apply run_phones_valid, IH. by eapply elem_of_values_get.
Qed.

(** ** The properties at the sample data *)

(** C1 fails as stated: Ann's birthday is three days from the day, but Leo's
    leap-day birthday makes the call raise, and no contact is reported. *)
Lemma C1_included_record_lost :
  get_upcoming_birthdays Sample.saturday Sample.leap_book = Raise DateValueError
  ∧ ∃ record b occ,
      record ∈ values (data Sample.leap_book)
      ∧ Rec.birthday record = Some b
      ∧ birthday_this_year Sample.saturday (Birthday.value b) = Ok occ
      ∧ sub_days occ Sample.saturday = 3.
Proof.
  split; [vm_compute; reflexivity|].
  exists Sample.ann, (Birthday.New (Date 1990 6 13)), (Date 2023 6 13).
  split_and!; try (vm_compute; reflexivity).
  vm_compute. left.
Qed.

Lemma C1_upcoming_window_witness :
  NoDup (Rec.name <$> values (data Sample.bob_book))
  ∧ ∃ out, get_upcoming_birthdays Sample.monday Sample.bob_book = Ok out
      ∧ ∀ record b,
          record ∈ values (data Sample.bob_book) → Rec.birthday record = Some b →
          ∃ occ, birthday_this_year Sample.monday (Birthday.value b) = Ok occ
            ∧ month occ = month (Birthday.value b)
            ∧ day occ = day (Birthday.value b)
            ∧ year occ =
              (if lt (Date (year Sample.monday) (month (Birthday.value b))
                           (day (Birthday.value b))) Sample.monday
               then year Sample.monday + 1 else year Sample.monday)
            ∧ (Rec.name record ∈ entry_name <$> out
               ↔ 0 ≤ sub_days occ Sample.monday ≤ 7).
Proof.
  assert (NoDup (Rec.name <$> values (data Sample.bob_book))) as Hnd.
  { vm_compute. apply NoDup_singleton. }
  split; [exact Hnd|].
  apply (C1_upcoming_window Sample.monday Sample.bob_book Hnd).
  intros record b Hin Hb. vm_compute in Hin.
  apply list_elem_of_singleton in Hin. subst record. injection Hb as <-.
  eexists. vm_compute. reflexivity.
Defined.

Lemma C2_weekend_shift_witness :
  get_upcoming_birthdays Sample.monday Sample.bob_book
  = Ok [Entry (lit "Bob") (lit "17.06.2024")]
  ∧ ∃ record b occ cd,
      record ∈ values (data Sample.bob_book) ∧ Rec.birthday record = Some b
      ∧ lit "Bob" = Rec.name record
      ∧ birthday_this_year Sample.monday (Birthday.value b) = Ok occ
      ∧ lit "17.06.2024" = strftime cd ∧ valid cd
      ∧ (weekday occ < 5 → cd = occ)
      ∧ (weekday occ = 5 → toordinal cd = toordinal occ + 2 ∧ weekday cd = 0)
      ∧ (weekday occ = 6 → toordinal cd = toordinal occ + 1 ∧ weekday cd = 0)
      ∧ weekday cd < 5.
Proof.
  assert (get_upcoming_birthdays Sample.monday Sample.bob_book
          = Ok [Entry (lit "Bob") (lit "17.06.2024")]) as E
    by (vm_compute; reflexivity).
  split; [exact E|].
  apply (C2_weekend_shift Sample.monday Sample.bob_book _
           (Entry (lit "Bob") (lit "17.06.2024")) E).
  left.
Defined.

Lemma C5_birthday_round_trip_witness :
  real_date_text (lit "15.06.1990")
  ∧ ∃ b, Birthday.init (lit "15.06.1990") = Ok b
         ∧ year (Birthday.value b) = number (drop 6 (lit "15.06.1990"))
         ∧ (Birthday.to_str b = lit "15.06.1990"
            ↔ 1000 ≤ year (Birthday.value b)).
Proof.
  assert (real_date_text (lit "15.06.1990")) as H.
  { exists 49, 53, 48, 54, 49, 57, 57, 48. split_and!.
    - reflexivity.
    - repeat constructor.
    - repeat split; vm_compute; congruence. }
  split; [exact H|]. apply (C5_birthday_round_trip _ H).
Defined.

Lemma C10_leap_day_raises_witness :
  is_leap (year Sample.saturday) = false
  ∧ get_upcoming_birthdays Sample.saturday Sample.leap_book
    = Raise DateValueError.
Proof.
  split; [reflexivity|].
  apply (C10_leap_day_raises Sample.saturday Sample.leap_book Sample.leo
           (Birthday.New (Date 2000 2 29))).
  - vm_compute. right. left.
  - reflexivity.
  - reflexivity.
  - reflexivity.
  - left. reflexivity.
Defined.

(** * Further properties *)

(** ** More on records *)

Lemma find_phone_None phone self :
  Rec.find_phone phone self = None ↔
  ∀ p, p ∈ Rec.phones self → Phone.value p ≠ phone.
Proof.
  unfold Rec.find_phone. induction (Rec.phones self) as [|q ps IH]; cbn.
  - split; [intros _ p Hp; by apply elem_of_nil in Hp|done].
  - destruct (bool_decide_reflect (Phone.value q = phone)) as [Hq|Hq].
    + split; [discriminate|]. intros H. destruct (H q); [by left|done].
    + rewrite IH. split.
      * intros H p [->|Hp]%elem_of_cons; auto.
      * intros H p Hp. apply H. by right.
Qed.

Lemma find_phone_Some phone self p :
  Rec.find_phone phone self = Some p ↔
  ∃ i, Rec.phones self !! i = Some p ∧ Phone.value p = phone
       ∧ ∀ j q, (j < i)%nat → Rec.phones self !! j = Some q →
                Phone.value q ≠ phone.
Proof.
  unfold Rec.find_phone. induction (Rec.phones self) as [|q ps IH]; cbn.
  - split; [discriminate|]. intros (i & Hi & _). done.
  - destruct (bool_decide_reflect (Phone.value q = phone)) as [Hq|Hq].
    + split.
      * intros [= <-]. exists 0%nat. split_and!; [done|done|]. intros j ? Hj. lia.
      * intros ([|i] & Hi & Hp & Hfirst).
        -- cbn in Hi. congruence.
        -- destruct (Hfirst 0%nat q); [lia|done|done].
    + rewrite IH. split.
      * intros (i & Hi & Hp & Hfirst). exists (S i). split_and!; [done|done|].
        intros [|j] q' Hj Hq'; cbn in Hq'; [congruence|].
        apply (Hfirst j); [lia|done].
      * intros ([|i] & Hi & Hp & Hfirst); cbn in Hi; [congruence|].
        exists i. split_and!; [done|done|].
        intros j q' Hj Hq'. apply (Hfirst (S j)); [lia|done].
Qed.

(** [find_phone] returns the first stored phone whose value equals the
    argument, and [None] exactly when no stored phone has that value. *)
Theorem find_phone_first (phone : str) (self : Rec.t) :
  (∀ p, Rec.find_phone phone self = Some p ↔
        ∃ i, Rec.phones self !! i = Some p ∧ first_at phone (Rec.phones self) i)
  ∧ (Rec.find_phone phone self = None ↔
     ∀ p, p ∈ Rec.phones self → Phone.value p ≠ phone).
Proof.
  split; [|apply find_phone_None].
  intros p. rewrite find_phone_Some. unfold first_at. split.
  - intros (i & Hi & Hp & Hfirst). exists i. eauto 10.
  - intros (i & Hi & (p' & Hi' & Hp) & Hfirst). exists i.
    assert (p' = p) as -> by congruence. auto.
Qed.

(** [edit_phone] raises [PhoneNotFound] exactly when [find_phone] of the old
    phone is [None], whatever the new phone is. *)
Theorem edit_phone_not_found_iff (old_phone new_phone : str) (self : Rec.t) :
  (Rec.edit_phone old_phone new_phone self).1 = Raise (PhoneNotFound old_phone)
  ↔ Rec.find_phone old_phone self = None.
Proof.
  split.
  - intros H. destruct (Rec.find_phone old_phone self) as [p|] eqn:E; [|done].
    apply find_phone_Some in E as (i & Hi & Hp & Hfirst).
    unfold Rec.edit_phone in H.
    rewrite (edit_phone_from_found 0 _ _ _ _ i p Hi Hp Hfirst) in H.
    destruct (Phone.validate new_phone); discriminate.
  - intros H. unfold Rec.edit_phone.
    rewrite edit_phone_from_missing; [done|]. by apply find_phone_None.
Qed.

(** A valid phone is appended after the stored ones and is found afterwards;
    what [find_phone] gives for other values does not change. *)
Theorem add_phone_then_find (phone : str) (self : Rec.t) :
  Phone.validate phone = true →
  (Rec.add_phone phone self).1 = Ok ()
  ∧ Rec.phones (Rec.add_phone phone self).2 = Rec.phones self ++ [Phone.New phone]
  ∧ (∃ p, Rec.find_phone phone (Rec.add_phone phone self).2 = Some p
          ∧ Phone.value p = phone)
  ∧ ∀ other, other ≠ phone →
      Rec.find_phone other (Rec.add_phone phone self).2
      = Rec.find_phone other self.
Proof.
  intros Hv. unfold Rec.add_phone, Phone.init. rewrite Hv. cbn [negb fst snd].
  split_and!; [done|done| |].
  - destruct (Rec.find_phone phone _) as [p|] eqn:E.
    + exists p. split; [done|]. apply find_phone_Some in E as (_ & _ & ? & _). done.
    + exfalso. apply (proj1 (find_phone_None _ _) E (Phone.New phone)); [|done].
      cbn. apply elem_of_app. right. by left.
  - intros other Hne. unfold Rec.find_phone. cbn.
    induction (Rec.phones self) as [|q ps IH]; cbn.
    + by rewrite bool_decide_eq_false_2 by congruence.
    + destruct (bool_decide _); [done|apply IH].
Qed.

Lemma count_phone_insert phone ps i p new :
  ps !! i = Some p →
  (count_phone phone (<[i := Phone.New new]> ps)
   + (if decide (Phone.value p = phone) then 1 else 0))%nat
  = (count_phone phone ps + (if decide (new = phone) then 1 else 0))%nat.
Proof.
  unfold count_phone. revert i. induction ps as [|q ps IH]; intros [|i] Hi;
    try discriminate; cbn in Hi.
  - injection Hi as ->. cbn [insert list_insert]. rewrite !filter_cons. cbn [Phone.value].
    destruct (decide (new = phone)), (decide (Phone.value p = phone));
      cbn [length]; lia.
  - cbn [insert list_insert]. rewrite !filter_cons. specialize (IH i Hi).
    destruct (decide (Phone.value q = phone)); cbn [length Nat.add];
      [f_equal|]; exact IH.
Qed.

(** When a number is stored more than once, [edit_phone] replaces one copy
    only: one occurrence of the old value fewer, one of the new value more,
    and the same number of every other value. *)
Theorem edit_phone_first_duplicate_only
    (old_phone new_phone : str) (self : Rec.t) :
  Rec.find_phone old_phone self ≠ None → Phone.validate new_phone = true →
  new_phone ≠ old_phone →
  let self' := (Rec.edit_phone old_phone new_phone self).2 in
  S (count_phone old_phone (Rec.phones self'))
  = count_phone old_phone (Rec.phones self)
  ∧ count_phone new_phone (Rec.phones self')
    = S (count_phone new_phone (Rec.phones self))
  ∧ ∀ other, other ≠ old_phone → other ≠ new_phone →
      count_phone other (Rec.phones self')
      = count_phone other (Rec.phones self).
Proof.
  intros Hf Hv Hne.
  destruct (Rec.find_phone old_phone self) as [p|] eqn:E; [|done].
  apply find_phone_Some in E as (i & Hi & Hp & Hfirst).
  unfold Rec.edit_phone.
  rewrite (edit_phone_from_found 0 _ _ _ _ i p Hi Hp Hfirst), Hv.
  cbn [Nat.add snd Rec.set_phones Rec.phones]. split_and!.
  - pose proof (count_phone_insert old_phone _ _ _ new_phone Hi) as H.
    rewrite decide_True, decide_False in H by done. lia.
  - pose proof (count_phone_insert new_phone _ _ _ new_phone Hi) as H.
    rewrite decide_False, decide_True in H by congruence. lia.
  - intros other H1 H2.
    pose proof (count_phone_insert other _ _ _ new_phone Hi) as H.
    rewrite !decide_False in H by congruence. lia.
Qed.

(** ** More on the book *)

Lemma setitem_absent key v d : key ∉ d.*1 → setitem key v d = d ++ [(key, v)].
Proof.
  induction d as [|[k w] d IH]; [done|].
  rewrite fmap_cons, not_elem_of_cons. cbn [fst setitem]. intros [Hne Hd].
  rewrite decide_False by congruence. by rewrite IH.
Qed.

Lemma setitem_keys_present key v d : key ∈ d.*1 → (setitem key v d).*1 = d.*1.
Proof.
  induction d as [|[k w] d IH]; cbn [setitem].
  - by intros ?%elem_of_nil.
  - rewrite fmap_cons, elem_of_cons. cbn [fst]. intros H.
    destruct (decide (k = key)) as [->|Hne]; [done|].
    rewrite !fmap_cons. cbn [fst]. rewrite IH; [done|]. by destruct H.
Qed.

(** [add_record] never raises; afterwards [find] of the record's name gives
    the record and every other name gives what it gave before; the keys keep
    their order, a new name going last. *)
Theorem add_record_then_find (record : Rec.t) (book : AddressBook.t) :
  let book' := (add_record record book).2 in
  (add_record record book).1 = Ok ()
  ∧ (∀ name, find name book' =
             if decide (name = Rec.name record) then Some record
             else find name book)
  ∧ (data book').*1 =
    if contains (Rec.name record) (data book) then (data book).*1
    else (data book).*1 ++ [Rec.name record].
Proof.
  cbn. split_and!; [done| |].
  - intros name. unfold find. cbn. apply get_setitem.
  - unfold contains. destruct (bool_decide_reflect (Rec.name record ∈ (data book).*1)).
    + by apply setitem_keys_present.
    + rewrite setitem_absent by done. by rewrite fmap_app.
Qed.

(** Adding a record under a name the book does not have and deleting that
    name gives the book back. *)
Theorem add_record_then_delete (record : Rec.t) (book : AddressBook.t) :
  find (Rec.name record) book = None →
  (delete (Rec.name record) (add_record record book).2).2 = book.
Proof.
  intros H. apply get_None in H. destruct book as [d]. cbn in *.
  unfold delete. cbn. rewrite setitem_absent by done.
  assert (contains (Rec.name record) (d ++ [(Rec.name record, record)]) = true) as ->.
  { unfold contains. apply bool_decide_eq_true. rewrite fmap_app.
    apply elem_of_app. right. by left. }
  cbn. f_equal. unfold delitem. rewrite filter_app.
  fold (delitem (Rec.name record) d). rewrite delitem_absent by done.
  rewrite filter_cons_False by (cbn; intros ?; done). cbn. by rewrite app_nil_r.
Qed.

Lemma run_name c self : Rec.name (run c self).2 = Rec.name self.
Proof.
  destruct c as [phone|phone|old new|birthday]; cbn [run].
  - unfold Rec.add_phone. by destruct (Phone.init phone).
  - done.
  - unfold Rec.edit_phone. generalize 0%nat. generalize (Rec.phones self).
    induction l as [|p l IH]; intros i; [done|]. cbn [Rec.edit_phone_from].
    destruct (decide _); [|apply IH]. by destruct (negb _).
  - unfold Rec.add_birthday. by destruct (Birthday.init birthday).
Qed.

Lemma setitem_keys_NoDup key v d : NoDup d.*1 → NoDup (setitem key v d).*1.
Proof.
  intros H. destruct (decide (key ∈ d.*1)).
  - by rewrite setitem_keys_present.
  - rewrite setitem_absent, fmap_app by done. apply NoDup_app. split_and!; [done| |].
    + intros x Hx [->|[]%elem_of_nil]%elem_of_cons. done.
    + apply NoDup_singleton.
Qed.

Lemma setitem_keyed key v d :
  key = Rec.name v → keyed_by_name d → keyed_by_name (setitem key v d).
Proof.
  unfold keyed_by_name. intros Hk. induction d as [|[k w] d IH]; cbn [setitem].
  - intros _. by repeat constructor.
  - intros [Hkw Hd]%Forall_cons. destruct (decide (k = key)) as [->|Hne].
    + constructor; done.
    + constructor; auto.
Qed.

Lemma delitem_keys_NoDup key d : NoDup d.*1 → NoDup (delitem key d).*1.
Proof.
  unfold delitem. induction d as [|[k w] d IH]; [done|].
  rewrite fmap_cons. intros [Hk Hd]%NoDup_cons. rewrite filter_cons.
  destruct (decide _); [|auto]. rewrite fmap_cons. apply NoDup_cons. split; [|auto].
  cbn [fst] in *. intros ([k' w'] & -> & Hin%list_elem_of_filter)%list_elem_of_fmap.
  apply Hk. apply list_elem_of_fmap. exists (k', w'). tauto.
Qed.

Lemma get_Some_elem key d r : get key d = Some r → (key, r) ∈ d.
Proof.
  induction d as [|[k w] d IH]; cbn; [done|].
  destruct (decide (k = key)) as [->|]; [intros [= ->]; by left|].
  intros ?. right. auto.
Qed.

(** In every book that the operations can reach the keys are distinct, each
    record is stored under its own name, and so no two records share a
    name. *)
Theorem reachable_book_keyed (book : AddressBook.t) :
  book_reachable book →
  NoDup (data book).*1 ∧ keyed_by_name (data book)
  ∧ NoDup (Rec.name <$> values (data book)).
Proof.
  intros H.
  assert (NoDup (data book).*1 ∧ keyed_by_name (data book)) as [Hnd Hk].
  { induction H as [|record book Hr _ [IH1 IH2]|name book _ [IH1 IH2]
                    |name c record book _ [IH1 IH2] Hf].
    - split; [constructor|constructor].
    - cbn. split; [by apply setitem_keys_NoDup|by apply setitem_keyed].
    - unfold delete. destruct (contains _ _); cbn; [|done].
      split; [by apply delitem_keys_NoDup|].
      unfold keyed_by_name, delitem in *. rewrite !Forall_forall in *.
      intros kv Hin%list_elem_of_filter. apply IH2, Hin.
    - cbn. split; [by apply setitem_keys_NoDup|]. apply setitem_keyed; [|done].
      rewrite run_name. apply get_Some_elem in Hf.
      unfold keyed_by_name in IH2. rewrite Forall_forall in IH2.
      apply (IH2 _ Hf). }
  split_and!; [done|done|].
  replace (Rec.name <$> values (data book)) with (data book).*1; [done|].
  unfold values. rewrite <- list_fmap_compose.
  apply Forall_fmap_ext_1. unfold keyed_by_name in Hk.
  eapply Forall_impl; [exact Hk|]. intros [k v] Hkv. done.
Qed.

(** ** More on the upcoming birthdays *)

(** The list of upcoming birthdays follows the order of the book and has at
    most one entry for a record. *)
Theorem upcoming_in_book_order (today : date) (book : AddressBook.t)
    (out : list entry) :
  get_upcoming_birthdays today book = Ok out →
  entry_name <$> out `sublist_of` Rec.name <$> values (data book).
Proof.
  unfold get_upcoming_birthdays. generalize (values (data book)).
  intros records (es & HF & ->)%upcoming_from_ok.
  cbn [app]. induction HF as [|r oe rs es Hr _ IH]; [done|].
  change (Rec.name <$> r :: rs) with (Rec.name r :: (Rec.name <$> rs)).
  destruct oe as [e|].
  - change (entry_name <$> omap id (Some e :: es))
      with (entry_name e :: (entry_name <$> omap id es)).
    apply entry_of_some in Hr as (b & occ & cd & _ & _ & _ & _ & ->).
    cbn [entry_name]. by apply sublist_skip.
  - change (omap id (None :: es)) with (omap id es). by apply sublist_cons.
Qed.

Lemma entry_of_raise_iff today record :
  entry_of today record = Raise DateValueError ↔
  ∃ b, Rec.birthday record = Some b
       ∧ birthday_this_year today (Birthday.value b) = Raise DateValueError.
Proof.
  split; [apply entry_of_raise|].
  intros (b & Hb & H). unfold entry_of. by rewrite Hb, H.
Qed.

(** The calculator raises exactly when the date-replace step fails for the
    birthday of some record, and what it raises is then that [ValueError]:
    the shift to Monday never leaves the calendar. *)
Theorem upcoming_raises_iff (today : date) (book : AddressBook.t) (e : error) :
  get_upcoming_birthdays today book = Raise e ↔
  e = DateValueError
  ∧ ∃ record b, record ∈ values (data book) ∧ Rec.birthday record = Some b
      ∧ birthday_this_year today (Birthday.value b) = Raise DateValueError.
Proof.
  unfold get_upcoming_birthdays. rewrite upcoming_from_raises. split.
  - intros (-> & r & Hin & (b & Hb & H)%entry_of_raise_iff). eauto 10.
  - intros (-> & r & b & Hin & Hb & H). split; [done|]. exists r. split; [done|].
    apply entry_of_raise_iff. eauto.
Qed.

Lemma birthday_this_year_cases today b occ :
  birthday_this_year today b = Ok occ →
  valid occ
  ∧ ((occ = Date (year today) (month b) (day b) ∧ lt occ today = false)
     ∨ (valid (Date (year today) (month b) (day b))
        ∧ lt (Date (year today) (month b) (day b)) today = true
        ∧ occ = Date (year today + 1) (month b) (day b))).
Proof.
  unfold birthday_this_year, replace_year.
  destruct (new (year today) (month b) (day b)) as [x|] eqn:E1; [|discriminate].
  cbn. apply new_valid in E1 as [-> Hv].
  destruct (lt _ today) eqn:E2.
  - intros [-> Hv']%new_valid. split; [done|]. right. done.
  - intros [= <-]. split; [done|]. left. done.
Qed.

Lemma year_step_days y m d :
  1 ≤ m ≤ 12 → ymd2ord (y + 1) m d - ymd2ord y m d ≤ 366.
Proof.
  intros Hm. unfold ymd2ord, days_before_month.
  rewrite days_before_year_succ.
  destruct (is_leap y), (is_leap (y + 1)), (2 <? m); cbn [andb]; lia.
Qed.

(** The birthday moved into this year or the next is never before [today]
    and at most 365 days after it. *)
Theorem days_until_range (today b occ : date) :
  valid today → birthday_this_year today b = Ok occ →
  0 ≤ sub_days occ today ≤ 365.
Proof.
  intros Ht H. split; [by eapply birthday_this_year_future|].
  apply birthday_this_year_cases in H as [Hv [[-> Hlt]|(Hv' & Hlt & ->)]].
  - unfold sub_days, toordinal, ymd2ord. cbn [year month day].
    destruct Hv as (_ & Hm & Hd), Ht as (_ & Hmt & Hdt). cbn [year month day] in *.
    pose proof (day_of_year_bounds _ _ _ Hm Hd).
    pose proof (day_of_year_bounds _ _ _ Hmt Hdt).
    destruct (is_leap (year today)); lia.
  - apply lt_toordinal in Hlt; [|done|done].
    destruct Hv' as (_ & Hm & _). cbn [year month day] in Hm.
    pose proof (year_step_days (year today) (month b) (day b) Hm).
    unfold sub_days, toordinal in *. cbn [year month day] in *. lia.
Qed.

(** Every entry of the list belongs to a record of the book, and its date
    is the rendering of a day [cd] that is the birthday occurrence [occ] of
    that record or up to two days after it; [occ] is 0 to 7 days from
    [today], hence [cd] is 0 to 9 days from [today]. *)
Theorem congratulation_within_nine_days (today : date) (book : AddressBook.t)
    (out : list entry) (e : entry) :
  get_upcoming_birthdays today book = Ok out → e ∈ out →
  ∃ record b occ cd,
    record ∈ values (data book) ∧ Rec.birthday record = Some b
    ∧ entry_name e = Rec.name record
    ∧ birthday_this_year today (Birthday.value b) = Ok occ
    ∧ congratulation_day occ = Ok cd
    ∧ congratulation_date e = strftime cd ∧ valid cd
    ∧ 0 ≤ sub_days occ today ≤ 7
    ∧ 0 ≤ sub_days cd occ ≤ 2
    ∧ 0 ≤ sub_days cd today ≤ 9.
Proof.
  intros E He. apply (upcoming_from_elem _ _ _ _ E) in He as (r & Hr & Her).
  apply entry_of_some in Her as (b & occ & cd & Hb & Hocc & W & Hcd & ->).
  pose proof (birthday_this_year_ok _ _ _ Hocc) as (Hv & _).
  destruct (congratulation_day_ok occ Hv) as (cd' & Hcd' & Hvcd & _ & Hord).
  assert (cd' = cd) as -> by congruence.
  exists r, b, occ, cd. cbn [congratulation_date entry_name]. unfold sub_days in *.
  destruct (weekday occ =? 5), (weekday occ =? 6); split_and!; auto; lia.
Qed.

(** ** Stored birthdays *)

Lemma init_valid s b : Birthday.init s = Ok b → valid (Birthday.value b).
Proof.
  unfold Birthday.init. destruct (Strptime.strptime s) as [d|] eqn:E; [|discriminate].
  intros [= <-]. cbn. apply strptime_ok in E as (? & ? & ? & _ & _ & _ & _ & H).
  by apply new_valid in H as [_ ?].
Qed.

Lemma run_birthday_valid c self : birthday_valid self → birthday_valid (run c self).2.
Proof.
  unfold birthday_valid. intros H. destruct c as [phone|phone|old new|birthday]; cbn [run].
  - unfold Rec.add_phone. by destruct (Phone.init phone).
  - done.
  - unfold Rec.edit_phone. generalize 0%nat. generalize (Rec.phones self).
    induction l as [|p l IH]; intros i; [done|]. cbn [Rec.edit_phone_from].
    destruct (decide _); [|apply IH]. by destruct (negb _).
  - unfold Rec.add_birthday. destruct (Birthday.init birthday) as [b|] eqn:E; [|done].
    cbn. intros b' [= <-]. by eapply init_valid.
Qed.

Lemma reachable_birthday_valid self : reachable self → birthday_valid self.
Proof.
  induction 1 as [name|c self _ IH]; [done|]. by apply run_birthday_valid.
Qed.

Lemma book_reachable_birthday_valid book :
  book_reachable book →
  ∀ record, record ∈ values (data book) → birthday_valid record.
Proof.
  induction 1 as [|record book Hr _ IH|name book _ IH|name c record book _ IH Hf];
    intros r Hin.
  - by apply elem_of_nil in Hin.
  - cbn in Hin. apply elem_of_values_setitem in Hin as [->|Hin]; [|auto].
    by apply reachable_birthday_valid.
  - unfold delete in Hin. destruct (contains _ _); cbn in Hin; [|auto].
    apply elem_of_values_delitem in Hin. auto.
  - cbn in Hin. apply elem_of_values_setitem in Hin as [->|Hin]; [|auto].
    apply run_birthday_valid, IH. by eapply elem_of_values_get.
Qed.

(** A birthday that was built holds a date of the calendar, and so does every
    birthday of a record or a book that the operations can reach. *)
Theorem stored_birthdays_valid :
  (∀ s b, Birthday.init s = Ok b → valid (Birthday.value b))
  ∧ (∀ self, reachable self → birthday_valid self)
  ∧ (∀ book, book_reachable book →
       ∀ record, record ∈ values (data book) → birthday_valid record).
Proof.
  split_and!.
  - apply init_valid.
  - apply reachable_birthday_valid.
  - apply book_reachable_birthday_valid.
Qed.

Lemma replace_year_ok b y :
  valid b → 1 ≤ y ≤ 9999 → ¬ (month b = 2 ∧ day b = 29) →
  replace_year b y = Ok (Date y (month b) (day b)).
Proof.
  intros Hv Hy Hleap. destruct b as [yb m d]. destruct Hv as (_ & Hm & Hd).
  cbn [year month day] in *. unfold replace_year. cbn [year month day].
  apply new_ok; [done|done|].
  revert Hd Hleap. unfold days_in_month.
  month_cases m; destruct (is_leap yb), (is_leap y); eval_items; lia.
Qed.

(** For a reachable book without a leap-day birthday and a day before the
    year 9999 the calculator returns a list. *)
Theorem upcoming_total (today : date) (book : AddressBook.t) :
  book_reachable book → valid today → year today < 9999 →
  (∀ record b, record ∈ values (data book) → Rec.birthday record = Some b →
     ¬ (month (Birthday.value b) = 2 ∧ day (Birthday.value b) = 29)) →
  ∃ out, get_upcoming_birthdays today book = Ok out.
Proof.
  intros Hbook Ht Hy Hleap.
  destruct (get_upcoming_birthdays today book) as [out|e] eqn:E; [eauto|].
  exfalso. unfold get_upcoming_birthdays in E.
  apply upcoming_from_raises in E as (_ & r & Hin & Hr).
  apply entry_of_raise in Hr as (b & Hb & H).
  assert (valid (Birthday.value b)) as Hv
    by apply (book_reachable_birthday_valid book Hbook r Hin b Hb).
  destruct Ht as ((Hy1 & _) & _). unfold MINYEAR in Hy1.
  revert H. unfold birthday_this_year.
  rewrite !replace_year_ok by (done || lia || by apply (Hleap r b)).
  cbn. by destruct (lt _ today).
Qed.

(** ** Rendering and parsing back *)

Lemma pad2_digits n :
  0 ≤ n ≤ 99 →
  ∃ a b, pad2 n = [a; b] ∧ 48 ≤ a ≤ 57 ∧ 48 ≤ b ≤ 57 ∧ number [a; b] = n.
Proof.
  intros Hn. unfold pad2, digit. eexists _, _. split; [done|].
  unfold number. cbn [foldl]. split_and!; Z.div_mod_to_equations; lia.
Qed.

Lemma year_text_four n :
  1000 ≤ n ≤ 9999 →
  ∃ a b c d, year_text n = [a; b; c; d] ∧ 48 ≤ a ≤ 57 ∧ 48 ≤ b ≤ 57
             ∧ 48 ≤ c ≤ 57 ∧ 48 ≤ d ≤ 57 ∧ number [a; b; c; d] = n.
Proof.
  intros Hn. unfold year_text. rewrite !(proj2 (Z.ltb_ge _ _)) by lia.
  unfold digit. eexists _, _, _, _. split; [done|].
  unfold number. cbn [foldl]. split_and!; Z.div_mod_to_equations; lia.
Qed.

(** ** The commands *)

Lemma setitem_same key v d : get key d = Some v → setitem key v d = d.
Proof.
  induction d as [|[k w] d IH]; cbn; [done|].
  destruct (decide (k = key)) as [->|Hne]; [by intros [= ->]|].
  intros H. by rewrite IH.
Qed.

Lemma edit_phone_outcome old new self :
  (Rec.edit_phone old new self).1 = Ok ()
  ∨ (Rec.edit_phone old new self).1 = Raise InvalidPhone
  ∨ (Rec.edit_phone old new self).1 = Raise (PhoneNotFound old).
Proof.
  unfold Rec.edit_phone. generalize 0%nat. generalize (Rec.phones self).
  induction l as [|p l IH]; intros i; [auto|]. cbn [Rec.edit_phone_from].
  destruct (decide _); [|apply IH]. destruct (negb _); auto.
Qed.

(** [add] with a name the book does not have: with a valid phone the book
    gets, last, a record with that one phone; with an invalid phone the
    reply is the text of the phone error, given after the record was stored,
    so an empty record of that name stays in the book.  Other names are not
    touched. *)
Theorem add_contact_new (library_text name phone : str) (rest : list str)
    (book : AddressBook.t) :
  find name book = None →
  if Phone.validate phone then
    ∃ book', Bot.add_contact library_text (name :: phone :: rest) book
             = (Ok (lit "Contact added."), book')
      ∧ find name book' = Some (Rec.New name [Phone.New phone] None)
      ∧ (data book').*1 = (data book).*1 ++ [name]
      ∧ ∀ other, other ≠ name → find other book' = find other book
  else
    ∃ book', Bot.add_contact library_text (name :: phone :: rest) book
             = (Ok (lit "Error: Phone number must be 10 digits."), book')
      ∧ find name book' = Some (Rec.init name)
      ∧ (data book').*1 = (data book).*1 ++ [name]
      ∧ ∀ other, other ≠ name → find other book' = find other book.
Proof.
  intros Hf. unfold Bot.add_contact, Bot.input_error, Bot.add_contact_func.
  rewrite Hf.
  pose proof (proj1 (get_None _ _) Hf) as Hk.
  unfold Bot.reply, Bot.on_found, find in *.
  cbn [add_record snd data Rec.name Rec.init].
  rewrite get_setitem, decide_True by done.
  unfold Rec.add_phone, Phone.init.
  assert (∀ r, (setitem name r (setitem name (Rec.init name) (data book))).*1
               = (data book).*1 ++ [name]) as Hkeys.
  { intros r. rewrite setitem_keys_present.
    - by rewrite setitem_absent, fmap_app.
    - rewrite setitem_absent, fmap_app by done. apply elem_of_app. right. by left. }
  destruct (Phone.validate phone); cbn [negb Bot.inner]; eexists;
    (split; [done|]);
    cbn [data]; rewrite get_setitem, decide_True by done;
    (split; [done|]); (split; [apply Hkeys|]);
    intros other Hne; by rewrite !get_setitem, !decide_False.
Qed.

(** [add] with a name the book has: a valid phone is appended to the stored
    record, in place; for an invalid one the reply is the text of the phone
    error and the book is as it was. *)
Theorem add_contact_existing (library_text name phone : str) (rest : list str)
    (book : AddressBook.t) (record : Rec.t) :
  find name book = Some record →
  if Phone.validate phone then
    ∃ book', Bot.add_contact library_text (name :: phone :: rest) book
             = (Ok (lit "Contact updated."), book')
      ∧ find name book'
        = Some (Rec.set_phones (Rec.phones record ++ [Phone.New phone]) record)
      ∧ (data book').*1 = (data book).*1
      ∧ ∀ other, other ≠ name → find other book' = find other book
  else
    Bot.add_contact library_text (name :: phone :: rest) book
    = (Ok (lit "Error: Phone number must be 10 digits."), book).
Proof.
  intros Hf. unfold Bot.add_contact, Bot.input_error, Bot.add_contact_func.
  rewrite Hf. unfold Bot.reply, Bot.on_found.
  rewrite Hf. unfold Rec.add_phone, Phone.init.
  destruct (Phone.validate phone); cbn [negb Bot.inner].
  - eexists. split; [done|]. unfold find in *. cbn [data]. split_and!.
    + by rewrite get_setitem, decide_True.
    + apply setitem_keys_present. apply dec_stable. intros Hn%get_None. congruence.
    + intros other Hne. by rewrite get_setitem, decide_False.
  - unfold find in Hf. rewrite setitem_same by done. by destruct book.
Qed.

Lemma change_contact_reply library_text name old_phone new_phone rest book record :
  find name book = Some record →
  (Bot.change_contact library_text (name :: old_phone :: new_phone :: rest) book).1
  = Ok (match (Rec.edit_phone old_phone new_phone record).1 with
        | Ok _ => lit "Contact updated."
        | Raise (PhoneNotFound _) =>
          lit "Error: Phone " ++ old_phone ++ lit " not found."
        | Raise _ => lit "Error: Phone number must be 10 digits."
        end).
Proof.
  intros Hf.
  unfold Bot.change_contact, Bot.input_error, Bot.change_contact_func,
    Bot.reply, Bot.on_found.
  rewrite Hf. pose proof (edit_phone_outcome old_phone new_phone record) as Ho.
  destruct (Rec.edit_phone old_phone new_phone record) as [[[]|e] record'];
    cbn [fst] in *; [done|].
  destruct Ho as [Ho|[Ho|Ho]]; [discriminate| |]; injection Ho as ->; done.
Qed.

(** [change] replies "Error: Contact not found." exactly when the book does
    not have the name: it is the [AttributeError] of a method of [None],
    caught by the decorator, and no other reply of the command has that
    text.  The book is then as it was. *)
Theorem change_contact_missing (library_text name old_phone new_phone : str)
    (rest : list str) (book : AddressBook.t) :
  let command :=
    Bot.change_contact library_text (name :: old_phone :: new_phone :: rest) book in
  (command.1 = Ok (lit "Error: Contact not found.") ↔ find name book = None)
  ∧ (find name book = None → command.2 = book).
Proof.
  cbn zeta.
  assert (find name book = None →
          Bot.change_contact library_text
            (name :: old_phone :: new_phone :: rest) book
          = (Ok (lit "Error: Contact not found."), book)) as Hmissing.
  { intros Hf.
    unfold Bot.change_contact, Bot.input_error, Bot.change_contact_func,
      Bot.reply, Bot.on_found.
    by rewrite Hf. }
  split; [split|].
  - destruct (find name book) as [record|] eqn:Hf; [|done].
    rewrite (change_contact_reply _ _ _ _ _ _ record Hf).
    destruct (Rec.edit_phone old_phone new_phone record).1 as [[]|[]];
      intros H; vm_compute in H; discriminate H.
  - intros Hf. by rewrite Hmissing.
  - intros Hf. by rewrite Hmissing.
Qed.

(** [change] with a name the book has is [edit_phone] on the stored record,
    in place.  The reply is "Contact updated." when [edit_phone] returns and
    the text of its error when it raises, which is the phone error or the
    not-found error; the stored record is the record after [edit_phone], keys
    and other records are untouched, and the book is as it was when
    [edit_phone] raises. *)
Theorem change_contact_found (library_text name old_phone new_phone : str)
    (rest : list str) (book : AddressBook.t) (record : Rec.t) :
  find name book = Some record →
  let outcome := Rec.edit_phone old_phone new_phone record in
  let command :=
    Bot.change_contact library_text (name :: old_phone :: new_phone :: rest) book in
  command.1
  = Ok (match outcome.1 with
        | Ok _ => lit "Contact updated."
        | Raise (PhoneNotFound _) =>
          lit "Error: Phone " ++ old_phone ++ lit " not found."
        | Raise _ => lit "Error: Phone number must be 10 digits."
        end)
  ∧ (outcome.1 = Ok () ∨ outcome.1 = Raise InvalidPhone
     ∨ outcome.1 = Raise (PhoneNotFound old_phone))
  ∧ find name command.2 = Some outcome.2
  ∧ (data command.2).*1 = (data book).*1
  ∧ (∀ other, other ≠ name → find other command.2 = find other book)
  ∧ (∀ e, outcome.1 = Raise e → command.2 = book).
Proof.
  intros Hf. cbn zeta.
  split; [by apply change_contact_reply|].
  split; [apply edit_phone_outcome|].
  unfold Bot.change_contact, Bot.input_error, Bot.change_contact_func,
    Bot.reply, Bot.on_found.
  rewrite Hf. pose proof (edit_phone_raises old_phone new_phone record) as Hr.
  destruct (Rec.edit_phone old_phone new_phone record) as [[[]|e] record'];
    cbn [fst snd] in *; unfold find in *; cbn [data]; split_and!; try done.
  - by rewrite get_setitem, decide_True.
  - apply setitem_keys_present. apply dec_stable. intros Hn%get_None. congruence.
  - intros other Hne. by rewrite get_setitem, decide_False.
  - by rewrite get_setitem, decide_True.
  - apply setitem_keys_present. apply dec_stable. intros Hn%get_None. congruence.
  - intros other Hne. by rewrite get_setitem, decide_False.
  - intros e' _. rewrite (Hr e eq_refl), setitem_same by done. by destruct book.
Qed.

(** After [add-birthday] with a text that parses, [show-birthday] gives the
    rendering of the date: day and month with two digits, the year without
    zeros in front.  It is the text itself when that was written DD.MM.YYYY
    with a year from 1000 on. *)
Theorem add_birthday_then_show (library_text name birthday : str)
    (rest : list str) (book : AddressBook.t) (record : Rec.t) (b : Birthday.t) :
  find name book = Some record → Birthday.init birthday = Ok b →
  let command := Bot.add_birthday library_text (name :: birthday :: rest) book in
  command.1 = Ok (lit "Birthday added.")
  ∧ find name command.2 = Some (Rec.set_birthday (Some b) record)
  ∧ Bot.show_birthday library_text [name] command.2
    = Ok (pad2 (day (Birthday.value b)) ++ lit "."
          ++ pad2 (month (Birthday.value b)) ++ lit "."
          ++ year_text (year (Birthday.value b)))
  ∧ (real_date_text birthday → 1000 ≤ year (Birthday.value b) →
     Bot.show_birthday library_text [name] command.2 = Ok birthday).
Proof.
  intros Hf Hb. cbn zeta.
  unfold Bot.add_birthday, Bot.input_error, Bot.add_birthday_func, Bot.reply,
    Bot.on_found, Rec.add_birthday.
  rewrite Hf, Hb. cbn [fst snd Bot.inner].
  unfold Bot.show_birthday, Bot.show_birthday_func, find. cbn [data].
  rewrite get_setitem, decide_True by done. cbn [Rec.birthday Rec.set_birthday].
  split_and!; [done|done|done|].
  intros Hreal Hy. cbn [Bot.inner]. f_equal.
  destruct Hreal as (d1 & d2 & m1 & m2 & y1 & y2 & y3 & y4 & -> & Hdig & Hv).
  rewrite (init_digits _ _ _ _ _ _ _ _ Hdig Hv) in Hb. injection Hb as <-.
  cbn [Birthday.value year] in Hy. by apply to_str_round_trip.
Qed.

(** After [add] of a valid phone under a new name, [phone] of that name
    shows the phone. *)
Theorem show_phone_after_add (library_text name phone : str)
    (book : AddressBook.t) :
  find name book = None → Phone.validate phone = true →
  Bot.show_phone library_text [name]
    (Bot.add_contact library_text [name; phone] book).2
  = Ok phone.
Proof.
  intros Hf Hv. unfold Bot.add_contact, Bot.input_error, Bot.add_contact_func.
  rewrite Hf.
  unfold Bot.reply, Bot.on_found, find in *.
  cbn [add_record snd data Rec.name Rec.init].
  rewrite get_setitem, decide_True by done.
  unfold Rec.add_phone, Phone.init. rewrite Hv. cbn [negb snd].
  unfold Bot.show_phone, Bot.show_phone_func, find. cbn [data].
  rewrite get_setitem, decide_True by done. done.
Qed.

Lemma on_found_run_reachable name c book :
  book_reachable book → book_reachable (Bot.on_found name (run c) book).2.
Proof.
  intros H. unfold Bot.on_found.
  destruct (find name book) as [record|] eqn:E; [|done].
  pose proof (book_reachable_call name c record book H E) as H'.
  by destruct (run c record).
Qed.

Lemma reply_snd {A} (m : AddressBook.method A) message book :
  (Bot.reply m message book).2 = (m book).2.
Proof. unfold Bot.reply. by destruct (m book) as [[?|?] ?]. Qed.

Lemma input_error_snd library_text func book :
  (Bot.input_error library_text func book).2 = (func book).2.
Proof. unfold Bot.input_error. by destruct (func book). Qed.

(** The three commands that change the book keep it among the books that
    the operations of the core can reach, whatever their reply. *)
Theorem commands_keep_reachable (library_text : str) (args : list str)
    (book : AddressBook.t) :
  book_reachable book →
  book_reachable (Bot.add_contact library_text args book).2
  ∧ book_reachable (Bot.change_contact library_text args book).2
  ∧ book_reachable (Bot.add_birthday library_text args book).2.
Proof.
  intros H. unfold Bot.add_contact, Bot.change_contact, Bot.add_birthday.
  rewrite !input_error_snd. split_and!.
  - unfold Bot.add_contact_func.
    destruct args as [|name [|phone rest]]; [done|done|].
    destruct (find name book); rewrite reply_snd.
    + by apply (on_found_run_reachable name (AddPhone phone)).
    + apply (on_found_run_reachable name (AddPhone phone)).
      apply book_reachable_add; [constructor|done].
  - unfold Bot.change_contact_func.
    destruct args as [|name [|old [|new rest]]]; [done|done|done|].
    rewrite reply_snd. by apply (on_found_run_reachable name (EditPhone old new)).
  - unfold Bot.add_birthday_func.
    destruct args as [|name [|birthday rest]]; [done|done|].
    rewrite reply_snd. by apply (on_found_run_reachable name (AddBirthday birthday)).
Qed.

Lemma run_own_error c self :
  (run c self).1 ≠ Raise DateValueError
  ∧ (run c self).1 ≠ Raise DateOverflowError.
Proof.
  destruct c as [phone|phone|old new|birthday]; cbn [run].
  - unfold Rec.add_phone, Phone.init. by destruct (negb _).
  - done.
  - destruct (edit_phone_outcome old new self) as [-> | [-> | ->]]; done.
  - unfold Rec.add_birthday, Birthday.init. by destruct (Strptime.strptime _).
Qed.

Lemma reply_run_own_error name c message book :
  (Bot.reply (Bot.on_found name (run c)) message book).1 ≠ Raise DateValueError
  ∧ (Bot.reply (Bot.on_found name (run c)) message book).1
    ≠ Raise DateOverflowError.
Proof.
  unfold Bot.reply, Bot.on_found. destruct (find name book) as [record|]; [|done].
  pose proof (run_own_error c record) as [H1 H2].
  destruct (run c record) as [[[]|e] record']; cbn [fst] in *;
    split; congruence.
Qed.

Lemma inner_own_error t1 t2 outcome :
  outcome ≠ Raise DateValueError ∧ outcome ≠ Raise DateOverflowError →
  ∃ message, Bot.inner t1 outcome = Ok message ∧ Bot.inner t2 outcome = Ok message.
Proof. intros [H1 H2]. destruct outcome as [m|[]]; cbn; try done; eauto. Qed.

Lemma input_error_own_error t1 t2 func book :
  (func book).1 ≠ Raise DateValueError ∧ (func book).1 ≠ Raise DateOverflowError →
  ∃ message book', Bot.input_error t1 func book = (Ok message, book')
    ∧ Bot.input_error t2 func book = (Ok message, book').
Proof.
  intros H. unfold Bot.input_error. destruct (func book) as [outcome book'].
  destruct (inner_own_error t1 t2 outcome H) as (message & -> & ->). eauto.
Qed.

(** No command raises: whatever the arguments and the book, each of the five
    gives a reply, since the decorator catches all that the function under
    it can raise.  The reply and the book after the call are the same for
    every text of the date library's errors: none of these reaches a reply. *)
Theorem commands_always_reply (library_text other_text : str)
    (args : list str) (book : AddressBook.t) :
  (∃ message book',
     Bot.add_contact library_text args book = (Ok message, book')
     ∧ Bot.add_contact other_text args book = (Ok message, book'))
  ∧ (∃ message book',
       Bot.change_contact library_text args book = (Ok message, book')
       ∧ Bot.change_contact other_text args book = (Ok message, book'))
  ∧ (∃ message,
       Bot.show_phone library_text args book = Ok message
       ∧ Bot.show_phone other_text args book = Ok message)
  ∧ (∃ message book',
       Bot.add_birthday library_text args book = (Ok message, book')
       ∧ Bot.add_birthday other_text args book = (Ok message, book'))
  ∧ (∃ message,
       Bot.show_birthday library_text args book = Ok message
       ∧ Bot.show_birthday other_text args book = Ok message).
Proof.
  split_and!.
  - apply input_error_own_error. unfold Bot.add_contact_func.
    destruct args as [|name [|phone rest]]; [done|done|].
    destruct (find name book); apply (reply_run_own_error name (AddPhone phone)).
  - apply input_error_own_error. unfold Bot.change_contact_func.
    destruct args as [|name [|old [|new rest]]]; [done|done|done|].
    apply (reply_run_own_error name (EditPhone old new)).
  - apply inner_own_error. unfold Bot.show_phone_func.
    destruct args as [|name rest]; [done|].
    destruct (find name book) as [record|]; [|done].
    by destruct (Rec.phones record).
  - apply input_error_own_error. unfold Bot.add_birthday_func.
    destruct args as [|name [|birthday rest]]; [done|done|].
    apply (reply_run_own_error name (AddBirthday birthday)).
  - apply inner_own_error. unfold Bot.show_birthday_func.
    destruct args as [|name rest]; [done|].
    destruct (find name book) as [record|]; [|done].
    by destruct (Rec.birthday record).
Qed.

Lemma pad2_no_dot n : 0 ≤ n ≤ 99 → 46 ∉ pad2 n.
Proof.
  intros Hn. destruct (pad2_digits n Hn) as (a & b & -> & Ha & Hb & _).
  intros [E|[E|[]%elem_of_nil]%elem_of_cons]%elem_of_cons; lia.
Qed.

(** The rendering of a birthday is made of the digits 0-9 and two dots.  For
    a year from 1000 on it is ten characters, and building a birthday from it
    gives the birthday back; for a year before 1000 it is shorter, and no
    birthday can be built from it. *)
Theorem render_then_parse (b : Birthday.t) :
  valid (Birthday.value b) →
  Forall (λ c, c = 46 ∨ Unicode.ascii_digit c = true) (Birthday.to_str b)
  ∧ (1000 ≤ year (Birthday.value b) →
     length (Birthday.to_str b) = 10%nat
     ∧ Birthday.init (Birthday.to_str b) = Ok b)
  ∧ (year (Birthday.value b) < 1000 →
     (length (Birthday.to_str b) < 10)%nat
     ∧ Birthday.init (Birthday.to_str b) = Raise InvalidBirthday).
Proof.
  intros Hv. destruct b as [d]. cbn [Birthday.value] in *.
  unfold Birthday.to_str. cbn [Birthday.value].
  pose proof Hv as (Hy & Hm & Hd). unfold MINYEAR, MAXYEAR in Hy.
  pose proof (days_in_month_le_31 (year d) _ Hm) as H31.
  destruct (pad2_digits (day d)) as (d1 & d2 & Ed & ? & ? & Nd); [lia|].
  destruct (pad2_digits (month d)) as (m1 & m2 & Em & ? & ? & Nm); [lia|].
  pose proof (year_text_digits (year d)) as HY.
  unfold strftime. split_and!.
  - rewrite Ed, Em. cbn [app]. rewrite !Forall_cons. split_and!;
      first [by left | right; apply ascii_digit_range; lia | idtac].
    eapply Forall_impl; [apply HY; lia|]. intros c Hc. right.
    by apply ascii_digit_range.
  - intros Hy'.
    destruct (year_text_four (year d)) as (y1 & y2 & y3 & y4 & Ey & ? & ? & ? & ? & Ny);
      [lia|].
    rewrite Ed, Em, Ey. cbn [app]. split; [done|].
    rewrite init_digits.
    + rewrite Nd, Nm, Ny. by destruct d.
    + repeat constructor; apply ascii_digit_range; lia.
    + rewrite Nd, Nm, Ny. by destruct d.
  - intros Hy'. pose proof (year_text_short (year d) Hy') as Hlen. split.
    + rewrite Ed, Em. cbn [app length]. lia.
    + unfold Birthday.init.
      destruct (strptime _) as [x|] eqn:E; [|done]. exfalso.
      apply strptime_ok in E as (d' & m' & Y' & E & Hd' & Hm' & HY' & _).
      cbn [app] in E.
      change (pad2 (day d) ++ 46 :: pad2 (month d) ++ 46 :: year_text (year d)
              = d' ++ 46 :: m' ++ 46 :: Y') in E.
      apply app_cons_unique in E as [_ E];
        [|apply pad2_no_dot; lia|by apply day_text_no_dot].
      apply app_cons_unique in E as [_ E];
        [|apply pad2_no_dot; lia|by apply month_text_no_dot].
      apply year_text_length in HY'. rewrite <- E in HY'. lia.
Qed.

(** A text that builds a birthday does not build one when anything is
    written after it. *)
Theorem trailing_text_rejected (s t : str) (b : Birthday.t) :
  Birthday.init s = Ok b → t ≠ [] →
  Birthday.init (s ++ t) = Raise InvalidBirthday.
Proof.
  intros Hs Ht. unfold Birthday.init in *.
  destruct (Strptime.strptime s) as [x|] eqn:E; [|discriminate].
  destruct (Strptime.strptime (s ++ t)) as [x'|] eqn:E'; [|done]. exfalso.
  apply strptime_ok in E as (d & m & Y & -> & Hd & Hm & HY & _).
  apply strptime_ok in E' as (d' & m' & Y' & E' & Hd' & Hm' & HY' & _).
  rewrite <- app_assoc in E'. cbn [app] in E'. rewrite <- app_assoc in E'.
  cbn [app] in E'.
  apply app_cons_unique in E' as [<- E']; auto using day_text_no_dot.
  apply app_cons_unique in E' as [<- E']; auto using month_text_no_dot.
  apply year_text_length in HY, HY'. apply (f_equal length) in E'.
  rewrite length_app in E'. destruct t; [done|]. cbn in E'. lia.
Qed.

(** A record without a birthday is never in the list. *)
Theorem no_birthday_not_reported (today : date) (book : AddressBook.t)
    (out : list entry) (record : Rec.t) :
  NoDup (Rec.name <$> values (data book)) →
  get_upcoming_birthdays today book = Ok out →
  record ∈ values (data book) → Rec.birthday record = None →
  Rec.name record ∉ entry_name <$> out.
Proof.
  intros Hnd E Hin Hb (e & Hne & He)%list_elem_of_fmap.
  apply (upcoming_from_elem _ _ _ _ E) in He as (r & Hr & Her).
  apply entry_of_some in Her as (b & occ & cd & Hb' & _ & _ & _ & ->).
  cbn in Hne. assert (record = r) as -> by (eapply NoDup_fmap_elem; eauto).
  congruence.
Qed.

Lemma leap_years_apart y : is_leap y = true → is_leap (y + 1) = false.
Proof.
  intros H%is_leap_true. apply not_true_is_false. rewrite is_leap_true.
  Z.div_mod_to_equations. lia.
Qed.

Lemma new_year_out_of_range y m d : 9999 < y → new y m d = Raise DateValueError.
Proof.
  intros H. unfold new, MINYEAR, MAXYEAR.
  rewrite (proj2 (Z.leb_gt y 9999)) by lia. by rewrite andb_false_r.
Qed.

(** For dates of the calendar, moving a birthday into this year or the next
    fails in two cases only: the birthday is February 29 and the year it is
    moved to is not a leap year, or the birthday has passed in the year 9999,
    after which the calendar ends. *)
Theorem birthday_this_year_raises_iff (today b : date) :
  valid today → valid b →
  raises (birthday_this_year today b) ↔
  (month b = 2 ∧ day b = 29
   ∧ (is_leap (year today) = false
      ∨ lt (Date (year today) 2 29) today = true))
  ∨ (year today = 9999 ∧ lt (Date 9999 (month b) (day b)) today = true).
Proof.
  intros Ht Hb. pose proof Ht as ((Hy1 & Hy2) & _). unfold MINYEAR, MAXYEAR in *.
  unfold raises, birthday_this_year.
  destruct (decide (month b = 2 ∧ day b = 29)) as [[Hm Hd]|Hleap].
  - unfold replace_year. rewrite Hm, Hd.
    destruct (is_leap (year today)) eqn:L.
    + rewrite (new_ok (year today) 2 29);
        [|lia|lia|unfold days_in_month; rewrite L; cbn [Z.eqb Pos.eqb andb]; lia].
      cbn. rewrite (new_leap_day _ (leap_years_apart _ L)).
      destruct (lt _ today) eqn:E.
      * split; [intros _|eauto]. left. auto.
      * split; [intros [e [=]]|]. intros [(_ & _ & [?|?])|[Hy E']]; try done.
        rewrite Hy in E. congruence.
    + rewrite (new_leap_day _ L). cbn. split; [|eauto]. intros _. left. auto.
  - rewrite (replace_year_ok b (year today)) by (done || lia). cbn.
    destruct (lt _ today) eqn:E.
    + destruct (decide (year today = 9999)) as [Hy|Hy].
      * unfold replace_year. rewrite new_year_out_of_range by lia.
        split; [|eauto]. intros _. right. rewrite Hy in E. auto.
      * rewrite replace_year_ok by (done || lia).
        split; [intros [e [=]]|]. intros [(Hm & Hd & _)|[? _]]; [|done].
        destruct Hleap. auto.
    + split; [intros [e [=]]|]. intros [(Hm & Hd & _)|[Hy E']].
      * destruct Hleap. auto.
      * rewrite Hy in E. congruence.
Qed.

(** ** The further properties at the sample data *)

Lemma bob_book_reachable : book_reachable Sample.bob_book.
Proof.
  apply book_reachable_add; [|apply book_reachable_empty].
  apply (reachable_call (AddBirthday (lit "15.06.1990"))), reachable_init.
Qed.

Lemma monday_valid : valid Sample.monday.
Proof. repeat split; vm_compute; congruence. Qed.

Lemma add_phone_then_find_witness :
  Rec.phones (Rec.add_phone Sample.phone1 (Rec.init (lit "Eve"))).2
  = [Phone.New Sample.phone1].
Proof.
  apply (add_phone_then_find Sample.phone1 (Rec.init (lit "Eve"))).
  vm_compute. reflexivity.
Defined.

Lemma edit_phone_first_duplicate_only_witness :
  count_phone Sample.phone1 (Rec.phones Sample.twice) = 2%nat
  ∧ S (count_phone Sample.phone1
         (Rec.phones (Rec.edit_phone Sample.phone1 Sample.phone2 Sample.twice).2))
    = count_phone Sample.phone1 (Rec.phones Sample.twice).
Proof.
  split; [vm_compute; reflexivity|].
  apply (edit_phone_first_duplicate_only Sample.phone1 Sample.phone2 Sample.twice).
  - vm_compute. discriminate.
  - vm_compute. reflexivity.
  - vm_compute. discriminate.
Defined.

Lemma add_record_then_delete_witness :
  (delete (Rec.name Sample.bob) (add_record Sample.bob empty).2).2 = empty.
Proof. apply (add_record_then_delete Sample.bob empty). reflexivity. Defined.

Lemma reachable_book_keyed_witness :
  NoDup (Rec.name <$> values (data Sample.bob_book)).
Proof. apply (reachable_book_keyed Sample.bob_book bob_book_reachable). Defined.

Lemma upcoming_in_book_order_witness :
  [lit "Bob"] `sublist_of` Rec.name <$> values (data Sample.bob_book).
Proof.
  apply (upcoming_in_book_order Sample.monday Sample.bob_book
           [Entry (lit "Bob") (lit "17.06.2024")]).
  vm_compute. reflexivity.
Defined.

Lemma days_until_range_witness :
  0 ≤ sub_days (Date 2024 6 15) Sample.monday ≤ 365.
Proof.
  apply (days_until_range Sample.monday (Date 1990 6 15) (Date 2024 6 15)
           monday_valid).
  vm_compute. reflexivity.
Defined.

Lemma congratulation_within_nine_days_witness :
  ∃ record b occ cd,
    record ∈ values (data Sample.bob_book) ∧ Rec.birthday record = Some b
    ∧ lit "Bob" = Rec.name record
    ∧ birthday_this_year Sample.monday (Birthday.value b) = Ok occ
    ∧ congratulation_day occ = Ok cd
    ∧ lit "17.06.2024" = strftime cd ∧ valid cd
    ∧ 0 ≤ sub_days occ Sample.monday ≤ 7
    ∧ 0 ≤ sub_days cd occ ≤ 2
    ∧ 0 ≤ sub_days cd Sample.monday ≤ 9.
Proof.
  apply (congratulation_within_nine_days Sample.monday Sample.bob_book
           [Entry (lit "Bob") (lit "17.06.2024")]
           (Entry (lit "Bob") (lit "17.06.2024"))).
  - vm_compute. reflexivity.
  - left.
Defined.

Lemma upcoming_total_witness :
  ∃ out, get_upcoming_birthdays Sample.monday Sample.bob_book = Ok out.
Proof.
  apply (upcoming_total Sample.monday Sample.bob_book bob_book_reachable
           monday_valid).
  - reflexivity.
  - intros record b Hin Hb [Hm _]. vm_compute in Hin.
    apply list_elem_of_singleton in Hin. subst record. injection Hb as <-.
    discriminate Hm.
Defined.

Lemma render_then_parse_witness :
  length (Birthday.to_str (Birthday.New (Date 1990 6 15))) = 10%nat
  ∧ Birthday.init (Birthday.to_str (Birthday.New (Date 1990 6 15)))
    = Ok (Birthday.New (Date 1990 6 15)).
Proof.
  apply (render_then_parse (Birthday.New (Date 1990 6 15))).
  - repeat split; vm_compute; congruence.
  - vm_compute. congruence.
Defined.

Lemma add_contact_new_witness :
  ∃ book', Bot.add_contact [] [lit "Bob"; lit "123"] empty
           = (Ok (lit "Error: Phone number must be 10 digits."), book')
    ∧ find (lit "Bob") book' = Some (Rec.init (lit "Bob"))
    ∧ (data book').*1 = (data empty).*1 ++ [lit "Bob"]
    ∧ ∀ other, other ≠ lit "Bob" → find other book' = find other empty.
Proof.
  apply (add_contact_new [] (lit "Bob") (lit "123") [] empty). reflexivity.
Defined.

Lemma add_contact_existing_witness :
  ∃ book', Bot.add_contact [] [lit "Bob"; Sample.phone1] Sample.bob_book
           = (Ok (lit "Contact updated."), book')
    ∧ find (lit "Bob") book'
      = Some (Rec.set_phones (Rec.phones Sample.bob ++ [Phone.New Sample.phone1])
                Sample.bob)
    ∧ (data book').*1 = (data Sample.bob_book).*1
    ∧ ∀ other, other ≠ lit "Bob" → find other book' = find other Sample.bob_book.
Proof.
  apply (add_contact_existing [] (lit "Bob") Sample.phone1 [] Sample.bob_book
           Sample.bob).
  vm_compute. reflexivity.
Defined.

Lemma change_contact_missing_witness :
  (Bot.change_contact [] [lit "Bob"; Sample.phone1; Sample.phone2] empty).2
  = empty.
Proof.
  apply (change_contact_missing [] (lit "Bob") Sample.phone1 Sample.phone2 []
           empty).
  reflexivity.
Defined.

Lemma change_contact_found_witness :
  (Bot.change_contact [] [lit "Bob"; Sample.phone1; Sample.phone2]
     Sample.bob_book).1
  = Ok (lit "Error: Phone 1234567890 not found.").
Proof.
  apply (change_contact_found [] (lit "Bob") Sample.phone1 Sample.phone2 []
           Sample.bob_book Sample.bob).
  vm_compute. reflexivity.
Defined.

Lemma add_birthday_then_show_witness :
  Bot.show_birthday [] [lit "Bob"]
    (Bot.add_birthday [] [lit "Bob"; lit "5.6.1990"] Sample.bob_book).2
  = Ok (lit "05.06.1990").
Proof.
  apply (add_birthday_then_show [] (lit "Bob") (lit "5.6.1990") [] Sample.bob_book
           Sample.bob (Birthday.New (Date 1990 6 5))).
  - vm_compute. reflexivity.
  - vm_compute. reflexivity.
Defined.

Lemma show_phone_after_add_witness :
  Bot.show_phone [] [lit "Bob"]
    (Bot.add_contact [] [lit "Bob"; Sample.phone1] empty).2
  = Ok Sample.phone1.
Proof.
  apply (show_phone_after_add [] (lit "Bob") Sample.phone1 empty).
  - reflexivity.
  - vm_compute. reflexivity.
Defined.

Lemma commands_keep_reachable_witness :
  book_reachable (Bot.add_contact [] [lit "Bob"; Sample.phone1] empty).2.
Proof.
  apply (commands_keep_reachable [] [lit "Bob"; Sample.phone1] empty).
  apply book_reachable_empty.
Defined.

Lemma trailing_text_rejected_witness :
  Birthday.init (lit "15.06.1990" ++ lit " ") = Raise InvalidBirthday.
Proof.
  apply (trailing_text_rejected (lit "15.06.1990") (lit " ")
           (Birthday.New (Date 1990 6 15))).
  - vm_compute. reflexivity.
  - discriminate.
Defined.

Lemma no_birthday_not_reported_witness :
  lit "Eve" ∉ entry_name
    <$> [Entry (lit "Bob") (lit "17.06.2024")].
Proof.
  apply (no_birthday_not_reported Sample.monday
           (add_record (Rec.init (lit "Eve")) Sample.bob_book).2
           [Entry (lit "Bob") (lit "17.06.2024")] (Rec.init (lit "Eve"))).
  - vm_compute. apply NoDup_cons. split; [|apply NoDup_singleton].
    intros H. apply list_elem_of_singleton in H. discriminate H.
  - vm_compute. reflexivity.
  - vm_compute. right. left.
  - reflexivity.
Defined.

Lemma saturday_valid : valid Sample.saturday.
Proof. repeat split; vm_compute; congruence. Qed.

Lemma birthday_this_year_raises_iff_witness :
  raises (birthday_this_year Sample.saturday (Date 2000 2 29)).
Proof.
  apply (birthday_this_year_raises_iff Sample.saturday (Date 2000 2 29)
           saturday_valid).
  - repeat split; vm_compute; congruence.
  - left. split_and!; [reflexivity|reflexivity|left; reflexivity].
Defined.
